(** * csvToDb: loading delimited text files into a relational store

    A shallow embedding of [csvToDb.py] and the properties of its
    specification.  Python text is modelled by [string]; every character the
    program inspects (['/'], ['.'], [' '], ['-'], the double quote, [',']) is
    ASCII, so the functions below act on UTF-8 encoded text as the Python
    functions act on code points.

    The program runs on a POSIX host ([os.path] is [posixpath]) under
    CPython 3.11 or later, with [sqlite3] in its default transaction control:
    a transaction is opened before a statement that changes records, and a
    statement that changes the schema while no transaction is open is durable
    at once.  Computations thread the state of the store, the output and a
    trace of the calls made to the outside, and end normally or by an
    exception. *)

From Stdlib Require Import Ascii String ZArith Lia List Bool DecimalString.
From stdpp Require Import gmap strings list fin_maps.
Import ListNotations.

Local Open Scope Z_scope.

(** ** Python string primitives *)

Module PyStr.

(** [s.rfind(c)] for a one-character [c]: the highest index holding [c]. *)
Fixpoint rfind_index (c : ascii) (s : string) : option nat :=
  match s with
  | EmptyString => None
  | String a s' =>
      match rfind_index c s' with
      | Some i => Some (S i)
      | None => if Ascii.eqb a c then Some 0%nat else None
      end
  end.

Definition rfind (s : string) (c : ascii) : Z :=
  match rfind_index c s with
  | Some i => Z.of_nat i
  | None => -1
  end.

Fixpoint drop (n : nat) (s : string) : string :=
  match n, s with
  | O, _ => s
  | S _, EmptyString => EmptyString
  | S k, String _ s' => drop k s'
  end.

Fixpoint take (n : nat) (s : string) : string :=
  match n, s with
  | O, _ => EmptyString
  | S _, EmptyString => EmptyString
  | S k, String a s' => String a (take k s')
  end.

(** [s[i:]], [s[:i]] and [s[i:j]] for non-negative bounds. *)
Definition slice_from (s : string) (i : Z) : string := drop (Z.to_nat i) s.
Definition slice_to (s : string) (i : Z) : string := take (Z.to_nat i) s.
Definition slice (s : string) (i j : Z) : string :=
  take (Z.to_nat (j - i)) (drop (Z.to_nat i) s).

(** [s.replace(old, new)] for one-character [old] and [new]. *)
Fixpoint replace (old new : ascii) (s : string) : string :=
  match s with
  | EmptyString => EmptyString
  | String a s' =>
      String (if Ascii.eqb a old then new else a) (replace old new s')
  end.

(** [sep.join(parts)]. *)
Fixpoint join (sep : string) (parts : list string) : string :=
  match parts with
  | [] => EmptyString
  | [x] => x
  | x :: rest => x +:+ sep +:+ join sep rest
  end.

(** [c in s] for a one-character [c]. *)
Fixpoint contains (c : ascii) (s : string) : bool :=
  match s with
  | EmptyString => false
  | String a s' => Ascii.eqb a c || contains c s'
  end.

(** [str(n)] for a natural number. *)
Definition str_nat (n : nat) : string := NilEmpty.string_of_uint (Nat.to_uint n).

Fixpoint chars (s : string) : list ascii :=
  match s with
  | EmptyString => []
  | String a s' => a :: chars s'
  end.

End PyStr.

(** ** [os.path] on a POSIX host *)

Module os_path.
Import PyStr.

(** [posixpath.basename]: [i = p.rfind('/') + 1; return p[i:]]. *)
Definition basename (p : string) : string :=
  let i := rfind p "/" + 1 in
  slice_from p i.

(** The loop of [genericpath._splitext] that skips the leading dots of the
    file name: it answers [true] as soon as a character other than ['.'] is
    met below [dotIndex], [false] when the indices run out. *)
Fixpoint skip_leading_dots (p : string) (filenameIndex : Z) (steps : nat) : bool :=
  match steps with
  | O => false
  | S k =>
      if negb (String.eqb (slice p filenameIndex (filenameIndex + 1)) ".")
      then true
      else skip_leading_dots p (filenameIndex + 1) k
  end.

(** [posixpath.splitext], that is [genericpath._splitext(p, '/', None, '.')]. *)
Definition splitext (p : string) : string * string :=
  let sepIndex := rfind p "/" in
  let dotIndex := rfind p "." in
  if (sepIndex <? dotIndex)
     && skip_leading_dots p (sepIndex + 1) (Z.to_nat (dotIndex - (sepIndex + 1)))
  then (slice_to p dotIndex, slice_from p dotIndex)
  else (p, EmptyString).

End os_path.

(** ** The identifier sanitizer *)

Definition sanitize_table_name (file_path : string) : string :=
  let base_name := os_path.basename file_path in
  let table_name := fst (os_path.splitext base_name) in
  let table_name :=
    PyStr.replace "-" "_" (PyStr.replace " " "_" (PyStr.replace "." "_" table_name)) in
  table_name.

(** The derivation in the specification's words: the final path segment, its
    last extension suffix removed, every period, space and hyphen turned into
    an underscore. *)
Module SanitizerSpec.

(** The text after the last ['/']. *)
Fixpoint final_path_segment (p : string) : string :=
  match p with
  | EmptyString => EmptyString
  | String a p' =>
      if PyStr.contains "/" p' then final_path_segment p'
      else if Ascii.eqb a "/" then p' else p
  end.

(** The last extension suffix is the last ['.'] of the segment with the text
    after it, when a character other than ['.'] stands before that period. *)
Fixpoint remove_extension_from (named : bool) (s : string) : string :=
  match s with
  | EmptyString => EmptyString
  | String a s' =>
      if Ascii.eqb a "." && named && negb (PyStr.contains "." s') then EmptyString
      else String a (remove_extension_from (named || negb (Ascii.eqb a ".")) s')
  end.

Definition remove_last_extension (segment : string) : string :=
  remove_extension_from false segment.

Definition underscore (a : ascii) : ascii :=
  if Ascii.eqb a "." || Ascii.eqb a " " || Ascii.eqb a "-" then "_"%char else a.

Fixpoint underscore_all (s : string) : string :=
  match s with
  | EmptyString => EmptyString
  | String a s' => String (underscore a) (underscore_all s')
  end.

Definition table_identifier (path : string) : string :=
  underscore_all (remove_last_extension (final_path_segment path)).

End SanitizerSpec.

(** ** Exceptions

    The exception classes the program can meet.  [IntegrityError],
    [OperationalError], [ProgrammingError] and [DataError] are the store's
    ([sqlite3]) classes; none of them is a subclass of another. *)

Inductive exn :=
| OSError (msg : string)
| UnicodeDecodeError (msg : string)
| StopIteration
| csv_Error (msg : string)
| IntegrityError (msg : string)
| OperationalError (msg : string)
| ProgrammingError (msg : string)
| DataError (msg : string)
| SystemExit (code : Z).

(** [str(e)]. *)
Definition exn_str (e : exn) : string :=
  match e with
  | OSError m | UnicodeDecodeError m | csv_Error m | IntegrityError m
  | OperationalError m | ProgrammingError m | DataError m => m
  | StopIteration => EmptyString
  | SystemExit c => EmptyString
  end.

(** The test of [except sqlite3.IntegrityError]. *)
Definition is_IntegrityError (e : exn) : bool :=
  match e with
  | IntegrityError _ => true
  | _ => false
  end.

Abbreviation row := (list string).

(** ** The delimited-text reader

    [csv.reader] with the default ([excel]) dialect: delimiter [','], the double
    quote as quote character, doubled quotes, no escape character, not strict.  The
    states that need an escape character are unreachable and left out. *)

Module csv.

Definition dquote : ascii := "034"%char.
Definition LF : ascii := "010"%char.
Definition CR : ascii := "013"%char.

Inductive ParserState :=
| START_RECORD | START_FIELD | IN_FIELD | IN_QUOTED_FIELD
| QUOTE_IN_QUOTED_FIELD | EAT_CRNL.

Record Reader := mkReader {
  state : ParserState;
  fields : list string;
  field : string;
  field_len : N }.

Definition field_limit : N := 131072%N.

Definition parse_reset : Reader :=
  {| state := START_RECORD; fields := []; field := EmptyString; field_len := 0%N |}.

Definition set_state (r : Reader) (s : ParserState) : Reader :=
  {| state := s; fields := fields r; field := field r; field_len := field_len r |}.

Definition parse_save_field (r : Reader) : Reader :=
  {| state := state r; fields := fields r ++ [field r];
     field := EmptyString; field_len := 0%N |}.

(** The text is held as the bytes of its UTF-8 encoding, and the reader
    counts characters: a byte that continues a character joins the field
    without being counted. *)
Definition is_continuation (c : ascii) : bool :=
  let n := nat_of_ascii c in ((128 <=? n) && (n <? 192))%nat.

Definition parse_add_char (r : Reader) (c : ascii) : exn + Reader :=
  if is_continuation c
  then inr {| state := state r; fields := fields r;
              field := field r +:+ String c EmptyString;
              field_len := field_len r |}
  else if (field_limit <=? field_len r)%N
  then inl (csv_Error "field larger than field limit (131072)")
  else inr {| state := state r; fields := fields r;
              field := field r +:+ String c EmptyString;
              field_len := N.succ (field_len r) |}.

Definition is_newline (c : ascii) : bool := Ascii.eqb c LF || Ascii.eqb c CR.

(** [parse_process_char]; [None] is the end-of-line mark [EOL] fed after the
    characters of each line. *)
Definition parse_process_char (r : Reader) (c : option ascii) : exn + Reader :=
  let end_of_record r :=
    inr (set_state (parse_save_field r)
           (match c with None => START_RECORD | Some _ => EAT_CRNL end)) in
  let start_field r :=
    match c with
    | None => end_of_record r
    | Some a =>
        if is_newline a then end_of_record r
        else if Ascii.eqb a dquote then inr (set_state r IN_QUOTED_FIELD)
        else if Ascii.eqb a "," then inr (parse_save_field r)
        else match parse_add_char r a with
             | inl e => inl e
             | inr r' => inr (set_state r' IN_FIELD)
             end
    end in
  match state r with
  | START_RECORD =>
      match c with
      | None => inr r
      | Some a =>
          if is_newline a then inr (set_state r EAT_CRNL)
          else start_field (set_state r START_FIELD)
      end
  | START_FIELD => start_field r
  | IN_FIELD =>
      match c with
      | None => end_of_record r
      | Some a =>
          if is_newline a then end_of_record r
          else if Ascii.eqb a "," then inr (set_state (parse_save_field r) START_FIELD)
          else parse_add_char r a
      end
  | IN_QUOTED_FIELD =>
      match c with
      | None => inr r
      | Some a =>
          if Ascii.eqb a dquote then inr (set_state r QUOTE_IN_QUOTED_FIELD)
          else parse_add_char r a
      end
  | QUOTE_IN_QUOTED_FIELD =>
      match c with
      | None => end_of_record r
      | Some a =>
          if Ascii.eqb a dquote then
            match parse_add_char r a with
            | inl e => inl e
            | inr r' => inr (set_state r' IN_QUOTED_FIELD)
            end
          else if Ascii.eqb a "," then inr (set_state (parse_save_field r) START_FIELD)
          else if is_newline a then end_of_record r
          else match parse_add_char r a with
               | inl e => inl e
               | inr r' => inr (set_state r' IN_FIELD)
               end
      end
  | EAT_CRNL =>
      match c with
      | None => inr (set_state r START_RECORD)
      | Some a =>
          if is_newline a then inr r
          else inl (csv_Error
                 "new-line character seen in unquoted field - do you need to open the file with newline=''?")
      end
  end.

Fixpoint process_line (r : Reader) (line : string) : exn + Reader :=
  match line with
  | EmptyString => parse_process_char r None
  | String c rest =>
      match parse_process_char r (Some c) with
      | inl e => inl e
      | inr r' => process_line r' rest
      end
  end.

(** The records [Reader_iternext] returns call after call over the lines of
    the input, and how the iteration ends: [Some e] when a line or the input
    raises [e], [None] on exhaustion.  [ending] is the error the input itself
    raises after its last line, if any. *)
Fixpoint read_records (r : Reader) (lines : list string) (ending : option exn)
  : list row * option exn :=
  match lines with
  | [] =>
      match ending with
      | Some e => ([], Some e)
      | None =>
          if negb (field_len r =? 0)%N
             || match state r with IN_QUOTED_FIELD => true | _ => false end
          then ([fields (parse_save_field r)], None)
          else ([], None)
      end
  | line :: rest =>
      match process_line r line with
      | inl e => ([], Some e)
      | inr r' =>
          match state r' with
          | START_RECORD =>
              let (rows, e) := read_records parse_reset rest ending in
              (fields r' :: rows, e)
          | _ => read_records r' rest ending
          end
      end
  end.

End csv.

(** ** Files

    A path names no readable file ([open] raises) or a file.  [text] holds
    the bytes of the file.  [broken] is the error of the device, if the read
    that follows these bytes fails instead of meeting the end of the file.

    [open(..., newline='', encoding='utf-8')] reads the file in chunks of
    [chunk_size] bytes and decodes chunk by chunk.  A chunk with a byte that
    no well-formed character admits raises [UnicodeDecodeError] as a whole:
    the lines read before it are those complete in the chunks before it.  A
    character cut by the end of a chunk waits for the next chunk; one cut by
    the end of the file raises when the end is met.  The lines end at
    ['\n'], ['\r'] or ['\r\n'] and keep their ending. *)

Inductive node :=
| no_file (e : exn)
| text_file (text : string) (broken : option exn).

Abbreviation filesystem := (string -> node).

Module utf8.

(** What a decoder awaits: the start of a character, or [more] bytes of one,
    the next of them between [lo] and [hi]. *)
Inductive await :=
| Start
| Cont (more : nat) (lo hi : nat).

(** The first byte of a character; [None] for a byte that starts none. *)
Definition lead (b : nat) : option await :=
  if (b <? 128)%nat then Some Start
  else if (b <? 194)%nat then None
  else if (b <? 224)%nat then Some (Cont 1 128 191)
  else if (b =? 224)%nat then Some (Cont 2 160 191)
  else if (b =? 237)%nat then Some (Cont 2 128 159)
  else if (b <? 240)%nat then Some (Cont 2 128 191)
  else if (b =? 240)%nat then Some (Cont 3 144 191)
  else if (b <? 244)%nat then Some (Cont 3 128 191)
  else if (b =? 244)%nat then Some (Cont 3 128 143)
  else None.

Definition step (a : await) (b : nat) : option await :=
  match a with
  | Start => lead b
  | Cont more lo hi =>
      if ((lo <=? b) && (b <=? hi))%nat then
        match more with
        | S (S k) => Some (Cont (S k) 128 191)
        | _ => Some Start
        end
      else None
  end.

(** The bytes are well-formed characters ([Whole]), or well-formed up to a
    last character, begun at offset [from], that the end cuts ([Partial]),
    or the byte at offset [at_] refutes the character begun at [from]
    ([Invalid]). *)
Inductive scanned :=
| Whole
| Partial (from : nat)
| Invalid (from at_ : nat).

(** [i] is the offset of the first byte of [s], [from] that of the
    character under way. *)
Fixpoint scan (a : await) (from i : nat) (s : string) : scanned :=
  match s with
  | EmptyString => match a with Start => Whole | Cont _ _ _ => Partial from end
  | String c s' =>
      let from' := match a with Start => i | Cont _ _ _ => from end in
      match step a (nat_of_ascii c) with
      | None => Invalid from' i
      | Some a' => scan a' from' (S i) s'
      end
  end.

(** The characters of a well-formed text, without the one its end cuts. *)
Definition complete (s : string) : string :=
  match scan Start 0 0 s with
  | Partial from => PyStr.take from s
  | _ => s
  end.

Definition hex2 (n : nat) : string :=
  let digit d :=
    if (d <? 10)%nat then ascii_of_nat (48 + d)%nat else ascii_of_nat (87 + d)%nat in
  String (digit (n / 16)%nat) (String (digit (n mod 16)%nat) EmptyString).

(** The error of the decoder for the bytes from [from] up to [upto] of its
    input, which starts at offset [base] of [text]. *)
Definition error (text : string) (base from upto : nat) (reason : string) : exn :=
  UnicodeDecodeError
    ("'utf-8' codec can't decode "
     +:+ (if (upto =? S from)%nat
          then "byte 0x"
               +:+ hex2 (match String.get from text with
                         | Some c => nat_of_ascii c
                         | None => 0%nat
                         end)
               +:+ " in position " +:+ PyStr.str_nat (from - base)%nat
          else "bytes in position " +:+ PyStr.str_nat (from - base)%nat
               +:+ "-" +:+ PyStr.str_nat (upto - 1 - base)%nat)
     +:+ ": " +:+ reason).

End utf8.

Fixpoint readlines_from (cur : string) (s : string) : list string :=
  match s with
  | EmptyString => match cur with EmptyString => [] | _ => [cur] end
  | String c s' =>
      if Ascii.eqb c csv.LF then (cur +:+ String c EmptyString) :: readlines_from EmptyString s'
      else if Ascii.eqb c csv.CR then
        match s' with
        | String c' s'' =>
            if Ascii.eqb c' csv.LF
            then (cur +:+ String c (String c' EmptyString)) :: readlines_from EmptyString s''
            else (cur +:+ String c EmptyString) :: readlines_from EmptyString s'
        | EmptyString => [cur +:+ String c EmptyString]
        end
      else readlines_from (cur +:+ String c EmptyString) s'
  end.

Definition readlines (text : string) : list string := readlines_from EmptyString text.

Definition chunk_size : Z := 8192.

(** The bytes of the chunks that end at or before offset [i]. *)
Definition chunks_before (text : string) (i : nat) : string :=
  PyStr.slice_to text (chunk_size * (Z.of_nat i / chunk_size)).

(** The lines that are complete in a text more of which is awaited: a line
    without its ending is not complete, nor is one whose ['\r'] is the last
    character, since a ['\n'] may follow. *)
Fixpoint complete_lines_from (cur : string) (s : string) : list string :=
  match s with
  | EmptyString => []
  | String c s' =>
      if Ascii.eqb c csv.LF
      then (cur +:+ String c EmptyString) :: complete_lines_from EmptyString s'
      else if Ascii.eqb c csv.CR then
        match s' with
        | String c' s'' =>
            if Ascii.eqb c' csv.LF
            then (cur +:+ String c (String c' EmptyString))
                 :: complete_lines_from EmptyString s''
            else (cur +:+ String c EmptyString) :: complete_lines_from EmptyString s'
        | EmptyString => []
        end
      else complete_lines_from (cur +:+ String c EmptyString) s'
  end.

Definition complete_lines (s : string) : list string :=
  complete_lines_from EmptyString s.

(** The lines a file yields and the error that ends them, if any. *)
Definition lines_read (text : string) (broken : option exn) : list string * option exn :=
  match utf8.scan utf8.Start 0 0 text with
  | utf8.Invalid from at_ =>
      let decoded := utf8.complete (chunks_before text at_) in
      (complete_lines decoded,
       Some (if (from =? at_)%nat
             then utf8.error text (String.length decoded) from (S from) "invalid start byte"
             else utf8.error text (String.length decoded) from at_
                    "invalid continuation byte"))
  | utf8.Partial from =>
      (complete_lines (PyStr.take from text),
       Some (match broken with
             | Some e => e
             | None => utf8.error text from from (String.length text)
                         "unexpected end of data"
             end))
  | utf8.Whole =>
      match broken with
      | Some e => (complete_lines text, Some e)
      | None => (readlines text, None)
      end
  end.

(** A reader object: the records it has still to yield and how its iteration
    ends. *)
Record reader := mkRd { pending : list row; ending : option exn }.

(** [csv.reader(csvfile)] over a file whose position is at its start. *)
Definition csv_reader (text : string) (broken : option exn) : reader :=
  let (lines, fault) := lines_read text broken in
  let (rows, e) := csv.read_records csv.parse_reset lines fault in
  {| pending := rows; ending := e |}.

(** ** The statements of the store

    The program hands the store statement texts.  The store reads them back
    with the lexical rules of SQL: blanks separate tokens, a double-quoted
    identifier runs to the next double quote that is not doubled, words are
    case-insensitive.  Two statement forms are modelled, the two the program
    emits; a column definition is a quoted name followed by the words of its
    declared type, quoted or not, without column constraints.  The declared
    type is kept as these words, separated by a blank: this is the text the
    store keeps for the type [TEXT] the program writes, not for every other
    type.  Any other text is refused as a syntax error, whose message is not
    modelled. *)

Module Sql.

Definition dquote : ascii := "034"%char.

Inductive token :=
| TWord (w : string)
| TName (n : string)
| TLParen | TRParen | TComma | TParam.

Inductive lex_mode :=
| Between
| InWord (w : string)
| InQuoted (n : string)
| AfterQuote (n : string).

Definition is_space (c : ascii) : bool :=
  let n := nat_of_ascii c in
  ((n =? 32) || (n =? 9) || (n =? 10) || (n =? 12) || (n =? 13))%nat.

Definition is_word_char (c : ascii) : bool :=
  let n := nat_of_ascii c in
  ((48 <=? n) && (n <=? 57) || (65 <=? n) && (n <=? 90)
   || (97 <=? n) && (n <=? 122) || (n =? 95) || (128 <=? n))%nat.

Definition upper (c : ascii) : ascii :=
  let n := nat_of_ascii c in
  if ((97 <=? n) && (n <=? 122))%nat then ascii_of_nat (n - 32) else c.

Definition lower (c : ascii) : ascii :=
  let n := nat_of_ascii c in
  if ((65 <=? n) && (n <=? 90))%nat then ascii_of_nat (n + 32) else c.

(** Names of tables and columns are compared without regard to ASCII case. *)
Fixpoint nocase (s : string) : string :=
  match s with
  | EmptyString => EmptyString
  | String a s' => String (lower a) (nocase s')
  end.

Definition snoc (s : string) (c : ascii) : string := s +:+ String c EmptyString.

Definition lex_start (c : ascii) : option (lex_mode * list token) :=
  if is_space c then Some (Between, [])
  else if Ascii.eqb c dquote then Some (InQuoted EmptyString, [])
  else if Ascii.eqb c "(" then Some (Between, [TLParen])
  else if Ascii.eqb c ")" then Some (Between, [TRParen])
  else if Ascii.eqb c "," then Some (Between, [TComma])
  else if Ascii.eqb c "?" then Some (Between, [TParam])
  else if is_word_char c then Some (InWord (String (upper c) EmptyString), [])
  else None.

Definition emit (t : token) (r : option (lex_mode * list token))
  : option (lex_mode * list token) :=
  match r with
  | Some (m, ts) => Some (m, t :: ts)
  | None => None
  end.

Definition lex_step (m : lex_mode) (c : ascii) : option (lex_mode * list token) :=
  match m with
  | Between => lex_start c
  | InWord w =>
      if is_word_char c then Some (InWord (snoc w (upper c)), [])
      else emit (TWord w) (lex_start c)
  | InQuoted n =>
      if Ascii.eqb c dquote then Some (AfterQuote n, [])
      else Some (InQuoted (snoc n c), [])
  | AfterQuote n =>
      if Ascii.eqb c dquote then Some (InQuoted (snoc n c), [])
      else emit (TName n) (lex_start c)
  end.

(** Running the lexer over a piece of text: the mode reached and the tokens
    completed on the way. *)
Fixpoint lex_run (m : lex_mode) (s : string) : option (lex_mode * list token) :=
  match s with
  | EmptyString => Some (m, [])
  | String c s' =>
      match lex_step m c with
      | None => None
      | Some (m', ts) =>
          match lex_run m' s' with
          | None => None
          | Some (m'', ts') => Some (m'', ts ++ ts')
          end
      end
  end.

Definition lex_finish (m : lex_mode) : option (list token) :=
  match m with
  | Between => Some []
  | InWord w => Some [TWord w]
  | InQuoted _ => None
  | AfterQuote n => Some [TName n]
  end.

Definition lex (sql : string) : option (list token) :=
  match lex_run Between sql with
  | None => None
  | Some (m, ts) =>
      match lex_finish m with
      | None => None
      | Some ts' => Some (ts ++ ts')
      end
  end.

Inductive statement :=
| CreateTableIfNotExists (name : string) (columns : list (string * string))
| InsertValues (name : string) (arity : nat).

(** Words that open a column constraint; a definition carrying one is outside
    the modelled statements. *)
Definition constraint_words : list string :=
  ["CONSTRAINT"; "PRIMARY"; "NOT"; "NULL"; "UNIQUE"; "CHECK"; "DEFAULT";
   "COLLATE"; "REFERENCES"; "GENERATED"; "AS"].

Definition is_constraint_word (w : string) : bool :=
  existsb (String.eqb w) constraint_words.

(** [name type-words] separated by commas and closed by a parenthesis that
    ends the statement.  [cur] is the definition being read, if any. *)
Fixpoint parse_columns (cur : option (string * list string)) (ts : list token)
  : option (list (string * string)) :=
  match cur, ts with
  | None, TName n :: ts' => parse_columns (Some (n, [])) ts'
  | Some (n, ws), TWord w :: ts' =>
      if is_constraint_word w then None
      else parse_columns (Some (n, ws ++ [w])) ts'
  | Some (n, ws), TName w :: ts' => parse_columns (Some (n, ws ++ [w])) ts'
  | Some (n, ws), TComma :: ts' =>
      match parse_columns None ts' with
      | Some cols => Some ((n, PyStr.join " " ws) :: cols)
      | None => None
      end
  | Some (n, ws), [TRParen] => Some [(n, PyStr.join " " ws)]
  | _, _ => None
  end.

(** [? , ? , ... )] closing the statement: the number of parameters. *)
Fixpoint parse_params (ts : list token) : option nat :=
  match ts with
  | [TParam; TRParen] => Some 1%nat
  | TParam :: TComma :: ts' =>
      match parse_params ts' with
      | Some k => Some (S k)
      | None => None
      end
  | _ => None
  end.

Definition is_word (w : string) (t : token) : bool :=
  match t with
  | TWord w' => String.eqb w w'
  | _ => false
  end.

Definition parse_statement (ts : list token) : option statement :=
  match ts with
  | c :: t :: i :: n :: e :: TName name :: TLParen :: cols =>
      if is_word "CREATE" c && is_word "TABLE" t && is_word "IF" i
         && is_word "NOT" n && is_word "EXISTS" e
      then match parse_columns None cols with
           | Some columns => Some (CreateTableIfNotExists name columns)
           | None => None
           end
      else None
  | i :: n :: TName name :: v :: TLParen :: params =>
      if is_word "INSERT" i && is_word "INTO" n && is_word "VALUES" v
      then match parse_params params with
           | Some k => Some (InsertValues name k)
           | None => None
           end
      else None
  | _ => None
  end.

Definition parse (sql : string) : option statement :=
  match lex sql with
  | Some ts => parse_statement ts
  | None => None
  end.

End Sql.

(** ** The store

    A table has a name, its columns with their declared types, its records,
    and a guard: the store's verdict on a new record given the records
    present, [Some e] when the write raises [e].  The guard stands for the
    constraints of a table ([IntegrityError]) and for any other failure of
    the write.  Tables are looked up by their name without regard to case.
    Values are kept as the text that was bound.

    A new table has at most [column_limit] columns; the tables a store
    already holds are taken as they are given.  Outside the model: the other
    size limits of the store (the variables and the length of a statement),
    views, indexes and triggers,
    conflict clauses that ignore or replace a record instead of raising, and
    the conversion of bound text by the affinity of a column that is not
    [TEXT]. *)

Record table := mkTable {
  tbl_name : string;
  tbl_columns : list (string * string);
  tbl_guard : list row -> row -> option exn;
  tbl_rows : list row }.

Abbreviation database := (gmap string table).

Definition no_guard : list row -> row -> option exn := fun _ _ => None.

Definition add_row (t : table) (r : row) : table :=
  {| tbl_name := tbl_name t; tbl_columns := tbl_columns t;
     tbl_guard := tbl_guard t; tbl_rows := tbl_rows t ++ [r] |}.

(** The records of a table, none when the table is absent. *)
Definition rows_of (db : database) (name : string) : list row :=
  match db !! Sql.nocase name with
  | Some t => tbl_rows t
  | None => []
  end.

(** What the program does to the outside, in order. *)
Inductive event :=
| ev_connect (db_name : string)
| ev_open (path : string)
| ev_execute (sql : string) (params : list string)
| ev_commit
| ev_exit (commit : bool).

(** [store] is the durable content of the store, [session] its content as
    the open connection sees it, [in_transaction] whether the connection has
    a transaction open. *)
Record state := mkState {
  store : database;
  session : database;
  in_transaction : bool;
  stdout : list string;
  trace : list event }.

Definition boot (db : database) : state :=
  {| store := db; session := db; in_transaction := false; stdout := []; trace := [] |}.

(** ** Computations: state and exceptions *)

Inductive outcome (A : Type) :=
| Normal (a : A)
| Raise (e : exn).
Arguments Normal {A} a.
Arguments Raise {A} e.

Definition M (A : Type) : Type := state -> outcome A * state.

Definition ret {A} (a : A) : M A := fun st => (Normal a, st).

Definition raise {A} (e : exn) : M A := fun st => (Raise e, st).

Definition bind {A B} (m : M A) (k : A -> M B) : M B := fun st =>
  match m st with
  | (Normal a, st') => k a st'
  | (Raise e, st') => (Raise e, st')
  end.

Notation "'let*' x := m 'in' k" := (bind m (fun x => k))
  (at level 10, x name, m at level 200, k at level 200).
Notation "m >> k" := (bind m (fun _ => k))
  (at level 90, right associativity).

(** [try: m except <class> as e: handler(e)]. *)
Definition try_except {A} (m : M A) (caught : exn -> bool) (handler : exn -> M A) : M A :=
  fun st =>
    match m st with
    | (Raise e, st') => if caught e then handler e st' else (Raise e, st')
    | r => r
    end.

Fixpoint for_each {A} (xs : list A) (body : A -> M unit) : M unit :=
  match xs with
  | [] => ret tt
  | x :: rest => body x >> for_each rest body
  end.

Definition log (ev : event) (st : state) : state :=
  {| store := store st; session := session st; in_transaction := in_transaction st;
     stdout := stdout st; trace := trace st ++ [ev] |}.

Definition print (line : string) : M unit := fun st =>
  (Normal tt,
   {| store := store st; session := session st; in_transaction := in_transaction st;
      stdout := stdout st ++ [line]; trace := trace st |}).

(** ** The connection *)

(** The first column whose name, without regard to case, was already given
    to an earlier column; [seen] holds the earlier names in lower case. *)
Fixpoint duplicate_column (seen : list string) (names : list string) : option string :=
  match names with
  | [] => None
  | c :: rest =>
      if existsb (String.eqb (Sql.nocase c)) seen then Some c
      else duplicate_column (Sql.nocase c :: seen) rest
  end.

Definition is_reserved (name : string) : bool :=
  String.prefix "sqlite_" (Sql.nocase name).

(** The store refuses a new table of more columns. *)
Definition column_limit : nat := 2000.

(** A change of the schema outside a transaction is durable at once; inside
    one it waits for the commit. *)
Definition write_schema (st : state) (db : database) : state :=
  {| store := if in_transaction st then store st else db;
     session := db; in_transaction := in_transaction st;
     stdout := stdout st; trace := trace st |}.

(** A change of records opens a transaction when none is open; [db] is the
    session after the statement. *)
Definition write_records (st : state) (db : database) : state :=
  {| store := store st; session := db; in_transaction := true;
     stdout := stdout st; trace := trace st |}.

(** The error of an [INSERT] whose values are not as many as the columns of
    its table. *)
Definition arity_error (t : table) (values : nat) : exn :=
  OperationalError
    ("table " +:+ tbl_name t +:+ " has " +:+ PyStr.str_nat (length (tbl_columns t))
     +:+ " columns but " +:+ PyStr.str_nat values +:+ " values were supplied").

Definition NUL : ascii := "000"%char.

(** [cursor.execute(sql, params)].  The statement is prepared first (syntax,
    names, arity); a record-changing statement then begins a transaction when
    none is open, its parameters are bound, and it runs. *)
Definition run_statement (s : Sql.statement) (params : list string) : M unit := fun st =>
  match s with
  | Sql.CreateTableIfNotExists name columns =>
      if is_reserved name then
        (Raise (OperationalError ("object name reserved for internal use: " +:+ name)), st)
      else
        match session st !! Sql.nocase name with
        | Some _ =>
            match params with
            | [] => (Normal tt, st)
            | _ => (Raise (ProgrammingError "Incorrect number of bindings supplied."), st)
            end
        | None =>
            (* the columns are added one by one: each is counted, then
               compared with those before it *)
            match duplicate_column [] (firstn column_limit (map fst columns)) with
            | Some c => (Raise (OperationalError ("duplicate column name: " +:+ c)), st)
            | None =>
              if (column_limit <? length columns)%nat then
                (Raise (OperationalError ("too many columns on " +:+ name)), st)
              else
              match params with
              | [] =>
                  (Normal tt,
                   write_schema st
                     (<[Sql.nocase name :=
                          {| tbl_name := name; tbl_columns := columns;
                             tbl_guard := no_guard; tbl_rows := [] |}]> (session st)))
              | _ => (Raise (ProgrammingError "Incorrect number of bindings supplied."), st)
              end
            end
        end
  | Sql.InsertValues name arity =>
      match session st !! Sql.nocase name with
      | None => (Raise (OperationalError ("no such table: " +:+ name)), st)
      | Some t =>
          if negb (length (tbl_columns t) =? arity)%nat then
            (Raise (arity_error t arity), st)
          else if negb (length params =? arity)%nat then
            (Raise (ProgrammingError "Incorrect number of bindings supplied."),
             write_records st (session st))
          else
            match tbl_guard t (tbl_rows t) params with
            | Some e => (Raise e, write_records st (session st))
            | None =>
                (Normal tt,
                 write_records st (<[Sql.nocase name := add_row t params]> (session st)))
            end
      end
  end.

Definition execute (sql : string) (params : list string) : M unit := fun st =>
  let st := log (ev_execute sql params) st in
  if PyStr.contains NUL sql then
    (Raise (ProgrammingError "the query contains a null character"), st)
  else
    match Sql.parse sql with
    | None => (Raise (OperationalError "syntax error"), st)
    | Some s => run_statement s params st
    end.

(** Committing makes the session durable and closes the transaction, when
    one is open. *)
Definition commit_transaction (st : state) : state :=
  {| store := if in_transaction st then session st else store st;
     session := session st; in_transaction := false;
     stdout := stdout st; trace := trace st |}.

Definition rollback_transaction (st : state) : state :=
  {| store := store st;
     session := if in_transaction st then store st else session st;
     in_transaction := false;
     stdout := stdout st; trace := trace st |}.

(** [conn.commit()]. *)
Definition conn_commit : M unit := fun st =>
  (Normal tt, commit_transaction (log ev_commit st)).

(** [sqlite3.connect(db_name)]: the connection starts on the durable content,
    with no transaction open. *)
Definition connect (db_name : string) : M unit := fun st =>
  (Normal tt,
   log (ev_connect db_name)
     {| store := store st; session := store st; in_transaction := false;
        stdout := stdout st; trace := trace st |}).

(** [with sqlite3.connect(db_name) as conn: body]: leaving the block commits
    when the body ended normally and rolls back when it raised; the
    exception goes on. *)
Definition with_connection (db_name : string) (body : M unit) : M unit := fun st =>
  match (connect db_name >> body) st with
  | (Normal tt, st') => (Normal tt, commit_transaction (log (ev_exit true) st'))
  | (Raise e, st') => (Raise e, rollback_transaction (log (ev_exit false) st'))
  end.

(** ** Reading *)

(** [open(path, newline='', encoding='utf-8')]. *)
Definition open (fs : filesystem) (path : string) : M (string * option exn) := fun st =>
  let st := log (ev_open path) st in
  match fs path with
  | no_file e => (Raise e, st)
  | text_file text broken => (Normal (text, broken), st)
  end.

(** [next(reader)]. *)
Definition next (r : reader) : M (row * reader) :=
  match pending r with
  | x :: rest => ret (x, {| pending := rest; ending := ending r |})
  | [] =>
      match ending r with
      | Some e => raise e
      | None => raise StopIteration
      end
  end.

(** [for row in reader: body(row)]. *)
Definition for_rows (r : reader) (body : row -> M unit) : M unit :=
  for_each (pending r) body >>
  match ending r with
  | Some e => raise e
  | None => ret tt
  end.

(** ** [repr] of a list of strings, as the diagnostics print a row

    A character that is not printable is written by its code.  Which
    characters are printable is a matter of the character database of the
    interpreter.  Of the characters outside ASCII, the controls, spaces,
    format characters and private-use characters listed in [hidden], of two
    or three bytes, are written by their code; every other character is
    taken to be printable. *)

Module Repr.

Definition hex_digit (n : nat) : ascii :=
  if (n <? 10)%nat then ascii_of_nat (48 + n) else ascii_of_nat (87 + n).

(** The code of a character of two or of three bytes. *)
Definition code2 (a b : ascii) : N :=
  ((N_of_ascii a - 192) * 64 + (N_of_ascii b - 128))%N.

Definition code3 (a b c : ascii) : N :=
  ((N_of_ascii a - 224) * 4096 + (N_of_ascii b - 128) * 64 + (N_of_ascii c - 128))%N.

Definition within (lo hi n : N) : bool := ((lo <=? n) && (n <=? hi))%N.

(** Characters that are not printable: the controls and the no-break space
    of Latin-1 and its soft hyphen, the Ogham space, the spaces, marks and
    format characters of General Punctuation, the ideographic space, the
    private-use area, the byte-order mark and the last specials. *)
Definition hidden (n : N) : bool :=
  within 128 160 n || (n =? 173)%N || (n =? 5760)%N
  || within 8192 8207 n || within 8232 8239 n || within 8287 8303 n
  || (n =? 12288)%N || within 57344 63743 n || (n =? 65279)%N
  || within 65520 65531 n || within 65534 65535 n.

Definition hex (n : N) : ascii := hex_digit (N.to_nat (n mod 16)).

(** [\xNN] below 256, [\uNNNN] from there on. *)
Definition escaped (n : N) : string :=
  if (n <? 256)%N
  then String "\" (String "x" (String (hex (n / 16)) (String (hex n) EmptyString)))
  else String "\" (String "u"
         (String (hex (n / 4096)) (String (hex (n / 256))
            (String (hex (n / 16)) (String (hex n) EmptyString))))).

Definition escape (quote c : ascii) : string :=
  let n := nat_of_ascii c in
  if Ascii.eqb c quote || Ascii.eqb c "\" then String "\" (String c EmptyString)
  else if (n =? 9)%nat then "\t"
  else if (n =? 10)%nat then "\n"
  else if (n =? 13)%nat then "\r"
  else if ((n <? 32) || (n =? 127))%nat then
    String "\" (String "x" (String (hex_digit (n / 16)) (String (hex_digit (n mod 16)) EmptyString)))
  else String c EmptyString.

Fixpoint escape_all (quote : ascii) (s : string) : string :=
  match s with
  | EmptyString => EmptyString
  | String a s1 =>
      let single := escape quote a +:+ escape_all quote s1 in
      if (N_of_ascii a <? 194)%N then single
      else
        match s1 with
        | EmptyString => single
        | String b s2 =>
            if (N_of_ascii a <? 224)%N then
              if hidden (code2 a b) then escaped (code2 a b) +:+ escape_all quote s2
              else String a (String b (escape_all quote s2))
            else if (N_of_ascii a <? 240)%N then
              match s2 with
              | EmptyString => single
              | String c s3 =>
                  if hidden (code3 a b c)
                  then escaped (code3 a b c) +:+ escape_all quote s3
                  else String a (String b (String c (escape_all quote s3)))
              end
            else single
        end
  end.

Definition repr_str (s : string) : string :=
  let quote :=
    if PyStr.contains "'" s && negb (PyStr.contains Sql.dquote s)
    then Sql.dquote else "'"%char in
  String quote (escape_all quote s) +:+ String quote EmptyString.

Definition repr_list (r : row) : string :=
  "[" +:+ PyStr.join ", " (map repr_str r) +:+ "]".

End Repr.

(** ** The program *)

Definition q : string := String Sql.dquote EmptyString.

Section Program.

Variable fs : filesystem.

Definition create_table_from_csv_header (table_name : string) (header_row : list string)
  : M unit :=
  let columns :=
    PyStr.join ", " (map (fun column => q +:+ column +:+ q +:+ " TEXT") header_row) in
  let sql := "CREATE TABLE IF NOT EXISTS " +:+ q +:+ table_name +:+ q +:+ " (" +:+ columns +:+ ")" in
  execute sql [].

(** The body of the loop over the data rows. *)
Definition insert_row (table_name : string) (num_columns : nat) (placeholders : string)
  (row : list string) : M unit :=
  if (length row =? num_columns)%nat then
    try_except
      (execute ("INSERT INTO " +:+ q +:+ table_name +:+ q +:+ " VALUES (" +:+ placeholders +:+ ")") row)
      is_IntegrityError
      (fun e => print ("Error inserting row: " +:+ Repr.repr_list row +:+ ". Error: " +:+ exn_str e))
  else
    print ("Skipping row with incorrect number of fields: " +:+ Repr.repr_list row).

Definition insert_csv_to_table (table_name : string) (csv_file_path : string) : M unit :=
  let* csvfile := open fs csv_file_path in
  let reader := csv_reader (fst csvfile) (snd csvfile) in
  let* hr := next reader in
  let header_row := fst hr in
  let reader := snd hr in
  let num_columns := length header_row in
  let placeholders := PyStr.join ", " (repeat "?" num_columns) in
  for_rows reader (insert_row table_name num_columns placeholders).

(** The body of the loop over the source files. *)
Definition import_file (csv_file_path : string) : M unit :=
  let table_name := sanitize_table_name csv_file_path in
  let* csvfile := open fs csv_file_path in
  let reader := csv_reader (fst csvfile) (snd csvfile) in
  let* hr := next reader in
  let header_row := fst hr in
  create_table_from_csv_header table_name header_row >>
  (* csvfile.seek(0): the reader goes on from the start of the file *)
  let reader := csv_reader (fst csvfile) (snd csvfile) in
  next reader >>
  insert_csv_to_table table_name csv_file_path.

Definition add_csvs_to_database (db_name : string) (csv_file_paths : list string) : M unit :=
  with_connection db_name
    (for_each csv_file_paths import_file >>
     conn_commit).

(** The script: [sys.argv] in, the interpreter's state out. *)
Definition main (argv : list string) : M unit :=
  if (length argv <? 3)%nat then
    print "Usage: python script.py database.db csv1.csv csv2.csv ..." >>
    raise (SystemExit 1)
  else
    let database_name := nth 1 argv EmptyString in
    let csv_paths := drop 2 argv in
    add_csvs_to_database database_name csv_paths.

End Program.

(** The exit status of the interpreter: [0] on normal completion, the code
    of [sys.exit], [1] for any other uncaught exception. *)
Definition exit_status (o : outcome unit) : Z :=
  match o with
  | Normal _ => 0
  | Raise (SystemExit code) => code
  | Raise _ => 1
  end.

(** ** Vocabulary of the properties *)

(** A name the quoting of the statements leaves intact: it holds no double
    quote. *)
Definition quote_free (s : string) : bool :=
  negb (PyStr.contains Sql.dquote s).

(** A name that can be written into a statement: no double quote and no
    null character. *)
Definition plain_name (s : string) : bool :=
  quote_free s && negb (PyStr.contains NUL s).

(** A data row is well formed when it has as many fields as the header. *)
Definition well_formed (header_row : list string) (r : row) : bool :=
  (length r =? length header_row)%nat.


(** The schema the program declares for a header. *)
Definition text_columns (header_row : list string) : list (string * string) :=
  map (fun column => (column, "TEXT")) header_row.

(** The two diagnostics. *)
Definition skip_line (r : row) : string :=
  "Skipping row with incorrect number of fields: " +:+ Repr.repr_list r.

Definition error_line (r : row) (e : exn) : string :=
  "Error inserting row: " +:+ Repr.repr_list r +:+ ". Error: " +:+ exn_str e.

(** What loading [data] does to a table of guard [guard] holding [present],
    row by row: the records that enter the table and the diagnostics, in
    order.  A row that is not well formed gives its diagnostic and no record;
    a well-formed row enters the table unless the guard rejects it. *)
Fixpoint loaded (header_row : list string) (guard : list row -> row -> option exn)
  (present : list row) (data : list row) : list row * list string :=
  match data with
  | [] => ([], [])
  | r :: rest =>
      if well_formed header_row r then
        match guard present r with
        | None =>
            let (rs, ds) := loaded header_row guard (present ++ [r]) rest in
            (r :: rs, ds)
        | Some e =>
            let (rs, ds) := loaded header_row guard present rest in
            (rs, error_line r e :: ds)
        end
      else
        let (rs, ds) := loaded header_row guard present rest in
        (rs, skip_line r :: ds)
  end.

(** The well-formed rows of [data] that the guard rejects. *)
Fixpoint refused (header_row : list string) (guard : list row -> row -> option exn)
  (present : list row) (data : list row) : list row :=
  match data with
  | [] => []
  | r :: rest =>
      if well_formed header_row r then
        match guard present r with
        | None => refused header_row guard (present ++ [r]) rest
        | Some _ => r :: refused header_row guard present rest
        end
      else refused header_row guard present rest
  end.


(** A table with further records. *)
Definition extend (t : table) (rs : list row) : table :=
  {| tbl_name := tbl_name t; tbl_columns := tbl_columns t;
     tbl_guard := tbl_guard t; tbl_rows := tbl_rows t ++ rs |}.

(** Events of reading and of statements, as opposed to those that open the
    connection, commit or leave its scope. *)
Definition is_work (ev : event) : bool :=
  match ev with
  | ev_open _ | ev_execute _ _ => true
  | _ => false
  end.


(** Reading a source file fails when it cannot be opened or when its reader
    ends by an error. *)
Definition reading_fails (fs : filesystem) (path : string) : bool :=
  match fs path with
  | no_file _ => true
  | text_file text broken =>
      match ending (csv_reader text broken) with
      | Some _ => true
      | None => false
      end
  end.

(** A guard that rejects only by integrity violations. *)
Definition integrity_only (guard : list row -> row -> option exn) : Prop :=
  forall present r e, guard present r = Some e -> is_IntegrityError e = true.

(** The connection sees the durable content whenever no transaction is open. *)
Definition consistent (st : state) : Prop :=
  in_transaction st = false -> session st = store st.

(** The statement texts the program builds. *)
Definition create_sql (table_name : string) (header_row : list string) : string :=
  "CREATE TABLE IF NOT EXISTS " +:+ q +:+ table_name +:+ q +:+ " ("
  +:+ PyStr.join ", " (map (fun column => q +:+ column +:+ q +:+ " TEXT") header_row)
  +:+ ")".

Definition insert_sql (table_name : string) (num_columns : nat) : string :=
  "INSERT INTO " +:+ q +:+ table_name +:+ q +:+ " VALUES ("
  +:+ PyStr.join ", " (repeat "?" num_columns) +:+ ")".

(** Whether a character other than ['.'] occurs among the first [d]
    characters. *)
Fixpoint named_before (d : nat) (s : string) : bool :=
  match d, s with
  | S k, String a s' => negb (Ascii.eqb a ".") || named_before k s'
  | _, _ => false
  end.

(** The tokens of a column list, short of the type of its last column. *)
Fixpoint column_tokens (header_row : list string) : list Sql.token :=
  match header_row with
  | [] => []
  | [c] => [Sql.TName c]
  | c :: rest => Sql.TName c :: Sql.TWord "TEXT" :: Sql.TComma :: column_tokens rest
  end.

(** The tokens of [n + 1] placeholders. *)
Fixpoint param_tokens (n : nat) : list Sql.token :=
  match n with
  | O => [Sql.TParam]
  | S k => Sql.TParam :: Sql.TComma :: param_tokens k
  end.

(** What no step of the loop over the files does: reading and executing
    statements only add events of work to the trace, keep the connection
    consistent with the store, and leave the durable records of every table
    as they are. *)
Definition steady (st st' : state) : Prop :=
  (exists tr, trace st' = trace st ++ tr /\ forallb is_work tr = true) /\
  (consistent st ->
   consistent st' /\ forall name, rows_of (store st') name = rows_of (store st) name).

(** What the loop over the files can make durable: the tables the store
    held stay as they are, and a table it did not hold comes without
    records. *)
Definition settled (st st' : state) : Prop :=
  consistent st ->
  consistent st' /\
  (forall key t, store st !! key = Some t -> store st' !! key = Some t) /\
  (forall key t, store st' !! key = Some t -> store st !! key = Some t \/ tbl_rows t = []).

(** A computation keeps a relation between the state it starts from and the
    state it ends in, however it ends. *)
Definition keeps (R : state -> state -> Prop) {A} (m : M A) : Prop :=
  forall st o st', m st = (o, st') -> R st st'.


(** ** Worked inputs *)

Module Scenario.

Definition nl : string := String csv.LF EmptyString.

Definition missing : node := no_file (OSError "No such file or directory").

(** [people.csv] holds the lines [id,name], [1,Alice] and [2,Bob,extra]. *)
Definition people_csv : string :=
  "id,name" +:+ nl +:+ "1,Alice" +:+ nl +:+ "2,Bob,extra" +:+ nl.

Definition people_fs : filesystem := fun path =>
  if String.eqb path "people.csv" then text_file people_csv None
  else if String.eqb path "empty.csv" then text_file EmptyString None
  else missing.

(** Two files whose names sanitize to [a_1], with two and three columns. *)
Definition collision_fs : filesystem := fun path =>
  if String.eqb path "a-1.csv" then text_file ("x,y" +:+ nl +:+ "1,2" +:+ nl) None
  else if String.eqb path "a.1.csv" then text_file ("p,q,r" +:+ nl +:+ "3,4,5" +:+ nl) None
  else missing.


(** The store's answer to three values for the two columns of [a_1]. *)
Definition collision_error : exn :=
  OperationalError "table a_1 has 2 columns but 3 values were supplied".


(** A file that holds the same record twice. *)
Definition repeat_fs : filesystem := fun path =>
  if String.eqb path "t.csv" then text_file ("a" +:+ nl +:+ "1" +:+ nl +:+ "1" +:+ nl) None
  else missing.

(** A table [t] with one column that must stay unique. *)
Definition unique_guard : list row -> row -> option exn := fun present r =>
  if existsb (fun x => bool_decide (x = r)) present
  then Some (IntegrityError "UNIQUE constraint failed: t.a")
  else None.

Definition keyed_table : table :=
  {| tbl_name := "t"; tbl_columns := [("a", "TEXT")];
     tbl_guard := unique_guard; tbl_rows := [] |}.

Definition keyed_store : database := {[ "t" := keyed_table ]}.

End Scenario.

(** ** Vocabulary of the further properties *)


(** The records the reader gives for a source file, its header first; none
    when the file cannot be opened. *)
Definition records_of (fs : filesystem) (path : string) : list row :=
  match fs path with
  | text_file text broken => pending (csv_reader text broken)
  | no_file _ => []
  end.

Definition header_of (fs : filesystem) (path : string) : list string :=
  match records_of fs path with
  | header_row :: _ => header_row
  | [] => []
  end.

Definition data_of (fs : filesystem) (path : string) : list row :=
  match records_of fs path with
  | _ :: data => data
  | [] => []
  end.




(** What importing a source file does to the outside when it goes through:
    the file is opened, its table is declared, the file is opened again, and
    each well-formed data row is inserted with its fields bound as read. *)
Definition file_events (fs : filesystem) (path : string) : list event :=
  [ev_open path;
   ev_execute (create_sql (sanitize_table_name path) (header_of fs path)) [];
   ev_open path]
  ++ map (ev_execute (insert_sql (sanitize_table_name path) (length (header_of fs path))))
       (List.filter (well_formed (header_of fs path)) (data_of fs path)).





(** Nothing is made durable. *)
Definition store_kept (st st' : state) : Prop := store st' = store st.

(** ** Further worked inputs *)

Module Archive.

(** [people.csv] as before, and [pets.csv] in a directory. *)
Definition pets_csv : string :=
  "name,owner" +:+ Scenario.nl +:+ "Rex,1" +:+ Scenario.nl.

Definition archive_fs : filesystem := fun path =>
  if String.eqb path "people.csv" then text_file Scenario.people_csv None
  else if String.eqb path "data/pets.csv" then text_file pets_csv None
  else Scenario.missing.




End Archive.

(** * Properties *)

Example sanitize_people : sanitize_table_name "data/people.csv" = "people".
Proof. reflexivity. Qed.

Example sanitize_hyphen : sanitize_table_name "a-1.csv" = "a_1".
Proof. reflexivity. Qed.

Example sanitize_period : sanitize_table_name "a.1.csv" = "a_1".
Proof. reflexivity. Qed.

Example sanitize_hidden : sanitize_table_name "/tmp/.hidden" = "_hidden".
Proof. reflexivity. Qed.

Example sanitize_dots : sanitize_table_name "..a.b c-d.tar.gz" = "__a_b_c_d_tar".
Proof. reflexivity. Qed.

(** A byte that starts no character loses the whole chunk it lies in: of a
    short file nothing is read. *)
Example read_bad_byte :
  csv_reader ("a,b" +:+ Scenario.nl +:+ "1,2" +:+ Scenario.nl +:+ String "255" EmptyString) None
  = {| pending := [];
       ending := Some (UnicodeDecodeError
         "'utf-8' codec can't decode byte 0xff in position 8: invalid start byte") |}.
Proof. reflexivity. Qed.

(** A character cut by the end of the file raises once the lines before it
    are read. *)
Example read_cut_character :
  csv_reader ("a,b" +:+ Scenario.nl +:+ "1,2" +:+ Scenario.nl +:+ String "226" EmptyString) None
  = {| pending := [["a"; "b"]; ["1"; "2"]];
       ending := Some (UnicodeDecodeError
         "'utf-8' codec can't decode byte 0xe2 in position 0: unexpected end of data") |}.
Proof. reflexivity. Qed.

(** A header of more columns than the store admits is refused. *)
Example too_many_columns :
  fst (run_statement
         (Sql.CreateTableIfNotExists "t"
            (map (fun n => (PyStr.str_nat n, "TEXT")) (seq 0 2001))) [] (boot ∅))
  = Raise (OperationalError "too many columns on t").
Proof. vm_compute. reflexivity. Qed.

(** ** The identifier sanitizer *)

Section Sanitizer.
Import PyStr os_path SanitizerSpec.

Lemma contains_rfind_index c s :
  contains c s = match rfind_index c s with Some _ => true | None => false end.
Proof.
  induction s as [|a s IH]; simpl; [done|].
  rewrite IH. destruct (rfind_index c s); simpl.
  - apply orb_true_r.
  - rewrite orb_false_r. by destruct (Ascii.eqb a c).
Qed.

Lemma basename_final_path_segment p : basename p = final_path_segment p.
Proof.
  induction p as [|a p IH]; [reflexivity|].
  simpl. rewrite <- IH, contains_rfind_index.
  unfold basename, rfind, slice_from. simpl.
  destruct (rfind_index "/" p) as [i|] eqn:E.
  - replace (Z.to_nat (Z.of_nat (S i) + 1)) with (S (Z.to_nat (Z.of_nat i + 1))) by lia.
    reflexivity.
  - destruct (Ascii.eqb a "/"); reflexivity.
Qed.

Lemma final_path_segment_no_sep p : contains "/" (final_path_segment p) = false.
Proof.
  induction p as [|a p IH]; [reflexivity|].
  simpl. destruct (contains "/" p) eqn:E; [done|].
  destruct (Ascii.eqb a "/") eqn:Ea; [done|]. simpl. by rewrite Ea, E.
Qed.

Lemma remove_extension_no_dot named s :
  contains "." s = false -> remove_extension_from named s = s.
Proof.
  revert named. induction s as [|a s IH]; intros named H; [done|].
  simpl in *. apply orb_false_elim in H as [Ha Hs].
  rewrite Ha. simpl. by rewrite IH.
Qed.

Lemma remove_extension_at named s d :
  rfind_index "." s = Some d ->
  remove_extension_from named s =
  if named || named_before d s then take d s else s.
Proof.
  revert named d. induction s as [|a s IH]; intros named d H; [done|].
  simpl in H. simpl remove_extension_from. rewrite contains_rfind_index.
  destruct (rfind_index "." s) as [i|] eqn:E.
  - injection H as <-. rewrite andb_false_r. rewrite (IH _ i eq_refl).
    simpl. rewrite orb_assoc. by destruct (named || negb (Ascii.eqb a ".") || named_before i s).
  - destruct (Ascii.eqb a ".") eqn:Ea; [|done]. injection H as <-.
    simpl. rewrite andb_true_r, orb_false_r.
    destruct named; [done|]. simpl.
    rewrite remove_extension_no_dot; [done|].
    by rewrite contains_rfind_index, E.
Qed.

Lemma slice_cons a s i :
  0 <= i -> slice (String a s) (i + 1) (i + 1 + 1) = slice s i (i + 1).
Proof.
  intros Hi. unfold slice.
  replace (Z.to_nat (i + 1)) with (S (Z.to_nat i)) by lia.
  replace (i + 1 + 1 - (i + 1)) with (i + 1 - i) by lia. reflexivity.
Qed.

Lemma skip_leading_dots_cons a s i k :
  0 <= i ->
  skip_leading_dots (String a s) (i + 1) k = skip_leading_dots s i k.
Proof.
  revert i. induction k as [|k IH]; intros i Hi; [done|].
  simpl. rewrite slice_cons by done. rewrite IH by lia. done.
Qed.

Lemma skip_leading_dots_named s d :
  (d <= String.length s)%nat ->
  skip_leading_dots s 0 d = named_before d s.
Proof.
  revert s. induction d as [|d IH]; intros s Hd; [by destruct s|].
  destruct s as [|a s]; [simpl in Hd; lia|].
  simpl in Hd. simpl skip_leading_dots.
  rewrite (skip_leading_dots_cons a s 0 d) by lia.
  rewrite IH by lia. simpl.
  unfold slice. simpl.
  destruct (Ascii.eqb a "."); done.
Qed.

Lemma rfind_index_lt c s d : rfind_index c s = Some d -> (d < String.length s)%nat.
Proof.
  revert d. induction s as [|a s IH]; intros d H; [done|].
  simpl in *. destruct (rfind_index c s) as [i|].
  - injection H as <-. specialize (IH i eq_refl). lia.
  - destruct (Ascii.eqb a c); [injection H as <-; lia | done].
Qed.

Lemma splitext_remove_last_extension s :
  contains "/" s = false -> fst (splitext s) = remove_last_extension s.
Proof.
  intros Hs. unfold splitext, remove_last_extension, rfind.
  rewrite contains_rfind_index in Hs.
  destruct (rfind_index "/" s); [done|].
  destruct (rfind_index "." s) as [d|] eqn:E.
  - rewrite (remove_extension_at _ _ d E). simpl (false || _).
    replace (-1 + 1) with 0 by lia.
    replace (Z.to_nat (Z.of_nat d - 0)) with d by lia.
    rewrite skip_leading_dots_named by (apply rfind_index_lt in E; lia).
    replace (-1 <? Z.of_nat d) with true by (symmetry; apply Z.ltb_lt; lia).
    simpl. destruct (named_before d s); simpl; [|done].
    unfold slice_to. by rewrite Nat2Z.id.
  - simpl. rewrite remove_extension_no_dot; [done|].
    by rewrite contains_rfind_index, E.
Qed.

Lemma replace_underscore_all s :
  replace "-" "_" (replace " " "_" (replace "." "_" s)) = underscore_all s.
Proof.
  induction s as [|a s IH]; [done|].
  simpl. rewrite IH. f_equal. unfold underscore.
  destruct (Ascii.eqb_spec a "."); [by subst|].
  destruct (Ascii.eqb_spec a " "); [by subst|].
  destruct (Ascii.eqb_spec a "-"); by subst.
Qed.

Lemma underscore_clean a :
  underscore a <> "."%char /\ underscore a <> " "%char /\ underscore a <> "-"%char.
Proof.
  unfold underscore.
  destruct (Ascii.eqb_spec a "."); [done|].
  destruct (Ascii.eqb_spec a " "); [done|].
  destruct (Ascii.eqb_spec a "-"); done.
Qed.

Lemma underscore_all_clean s c :
  In c (chars (underscore_all s)) ->
  c <> "."%char /\ c <> " "%char /\ c <> "-"%char.
Proof.
  induction s as [|a s IH]; simpl; [done|].
  intros [<-|H]; [apply underscore_clean | auto].
Qed.

(** C2.  For every path, the identifier [sanitize_table_name] derives is the
    final path segment, its last extension suffix removed, with every period,
    space and hyphen replaced by an underscore; it holds no period, space or
    hyphen.  The derivation is a total function of the path. *)
Theorem sanitize_table_name_spec (file_path : string) :
  sanitize_table_name file_path = table_identifier file_path /\
  (forall c, In c (chars (sanitize_table_name file_path)) ->
             c <> "."%char /\ c <> " "%char /\ c <> "-"%char).
Proof.
  assert (E : sanitize_table_name file_path = table_identifier file_path).
  { unfold sanitize_table_name, table_identifier.
    rewrite replace_underscore_all, basename_final_path_segment.
    rewrite splitext_remove_last_extension; [done|].
    apply final_path_segment_no_sep. }
  split; [exact E|]. rewrite E. intros c. apply underscore_all_clean.
Qed.

End Sanitizer.

(** ** Reading the program's statements back *)

Section Statements.
Import Sql.

Lemma append_cons x (a b : string) : String x a +:+ b = String x (a +:+ b).
Proof. reflexivity. Qed.

Lemma append_nil_r (a : string) : a +:+ EmptyString = a.
Proof. induction a as [|x a IH]; [done|]. by rewrite append_cons, IH. Qed.

Lemma append_assoc (a b c : string) : (a +:+ b) +:+ c = a +:+ (b +:+ c).
Proof. induction a as [|x a IH]; [done|]. by rewrite !append_cons, IH. Qed.

Lemma lex_run_app m a b :
  lex_run m (a +:+ b) =
  match lex_run m a with
  | None => None
  | Some (m', ts) =>
      match lex_run m' b with
      | None => None
      | Some (m'', ts') => Some (m'', ts ++ ts')
      end
  end.
Proof.
  revert m. induction a as [|c a IH]; intros m.
  - change (EmptyString +:+ b) with b. simpl.
    destruct (lex_run m b) as [[? ?]|]; done.
  - rewrite append_cons. simpl.
    destruct (lex_step m c) as [[m1 t1]|]; [|done].
    rewrite IH. destruct (lex_run m1 a) as [[m2 t2]|]; [|done].
    destruct (lex_run m2 b) as [[m3 t3]|]; [|done].
    by rewrite app_assoc.
Qed.

Lemma lex_run_quoted n s :
  quote_free s = true ->
  lex_run (InQuoted n) s = Some (InQuoted (n +:+ s), []).
Proof.
  revert n. induction s as [|c s IH]; intros n H.
  - simpl. by rewrite append_nil_r.
  - unfold quote_free in H. simpl in H.
    apply negb_true_iff, orb_false_elim in H as [Hc Hs].
    simpl. rewrite Hc. rewrite IH by (unfold quote_free; by rewrite Hs).
    unfold snoc. by rewrite append_assoc.
Qed.

(** A quoted name met between tokens. *)
Lemma lex_run_name s rest :
  quote_free s = true ->
  lex_run Between (q +:+ s +:+ q +:+ rest) = lex_run (AfterQuote s) rest.
Proof.
  intros H. unfold q at 1. rewrite append_cons.
  change (EmptyString +:+ ?x) with x.
  simpl. rewrite lex_run_app, (lex_run_quoted _ _ H).
  change (EmptyString +:+ s) with s.
  unfold q. rewrite append_cons. simpl.
  change (EmptyString +:+ rest) with rest.
  destruct (lex_run (AfterQuote s) rest) as [[? ?]|]; done.
Qed.

Lemma lex_run_columns c header_row :
  forallb quote_free (c :: header_row) = true ->
  lex_run Between
    (PyStr.join ", " (map (fun column => q +:+ column +:+ q +:+ " TEXT") (c :: header_row)))
  = Some (InWord "TEXT", column_tokens (c :: header_row)).
Proof.
  revert c. induction header_row as [|c' h IH]; intros c H.
  - simpl in H. apply andb_true_iff in H as [Hc _].
    simpl PyStr.join. rewrite (lex_run_name _ _ Hc). reflexivity.
  - cbn [forallb] in H. apply andb_true_iff in H as [Hc H].
    change (PyStr.join ", " (map (fun column => q +:+ column +:+ q +:+ " TEXT") (c :: c' :: h)))
      with ((q +:+ c +:+ q +:+ " TEXT") +:+ ", " +:+
            PyStr.join ", " (map (fun column => q +:+ column +:+ q +:+ " TEXT") (c' :: h))).
    rewrite !append_assoc. rewrite (lex_run_name _ _ Hc).
    rewrite (lex_run_app _ " TEXT").
    change (lex_run (AfterQuote c) " TEXT") with (Some (InWord "TEXT", [TName c])).
    cbv beta iota. rewrite (lex_run_app _ ", ").
    change (lex_run (InWord "TEXT") ", ") with (Some (Between, [TWord "TEXT"; TComma])).
    cbv beta iota. rewrite (IH c' H). reflexivity.
Qed.

Lemma parse_columns_text c header_row :
  parse_columns None (column_tokens (c :: header_row) ++ [TWord "TEXT"; TRParen])
  = Some (text_columns (c :: header_row)).
Proof.
  revert c. induction header_row as [|c' h IH]; intros c; [reflexivity|].
  change (column_tokens (c :: c' :: h))
    with (TName c :: TWord "TEXT" :: TComma :: column_tokens (c' :: h)).
  cbn [app parse_columns]. 
  change (is_constraint_word "TEXT") with false. cbn iota.
  rewrite IH. reflexivity.
Qed.

Lemma parse_create_sql table_name header_row :
  quote_free table_name = true ->
  header_row <> [] ->
  forallb quote_free header_row = true ->
  parse (create_sql table_name header_row)
  = Some (CreateTableIfNotExists table_name (text_columns header_row)).
Proof.
  intros Ht Hne Hh. destruct header_row as [|c h]; [done|].
  unfold parse, lex, create_sql.
  rewrite (lex_run_app _ "CREATE TABLE IF NOT EXISTS ").
  change (lex_run Between "CREATE TABLE IF NOT EXISTS ")
    with (Some (Between, [TWord "CREATE"; TWord "TABLE"; TWord "IF"; TWord "NOT"; TWord "EXISTS"])).
  cbv beta iota. rewrite (lex_run_name _ _ Ht).
  rewrite (lex_run_app _ " ("). 
  change (lex_run (AfterQuote table_name) " (") with (Some (Between, [TName table_name; TLParen])).
  cbv beta iota. rewrite lex_run_app, (lex_run_columns _ _ Hh).
  change (lex_run (InWord "TEXT") ")") with (Some (Between, [TWord "TEXT"; TRParen])).
  cbv beta iota. cbn [lex_finish]. rewrite app_nil_r.
  cbn [app parse_statement]. 
  change (is_word "CREATE" (TWord "CREATE") && is_word "TABLE" (TWord "TABLE")
          && is_word "IF" (TWord "IF") && is_word "NOT" (TWord "NOT")
          && is_word "EXISTS" (TWord "EXISTS")) with true.
  cbv iota. by rewrite parse_columns_text.
Qed.

Lemma lex_run_placeholders n :
  lex_run Between (PyStr.join ", " (repeat "?" (S n))) = Some (Between, param_tokens n).
Proof.
  induction n as [|n IH]; [reflexivity|].
  change (PyStr.join ", " (repeat "?" (S (S n))))
    with ("?" +:+ ", " +:+ PyStr.join ", " (repeat "?" (S n))).
  rewrite (lex_run_app _ "?").
  change (lex_run Between "?") with (Some (Between, [TParam])).
  cbv beta iota. rewrite (lex_run_app _ ", ").
  change (lex_run Between ", ") with (Some (Between, [TComma])).
  cbv beta iota. rewrite IH. reflexivity.
Qed.

Lemma parse_params_tokens n :
  parse_params (param_tokens n ++ [TRParen]) = Some (S n).
Proof.
  induction n as [|n IH]; [reflexivity|].
  cbn [param_tokens app parse_params]. rewrite IH.
  destruct (param_tokens n ++ [TRParen]) eqn:E; [destruct n; discriminate|].
  done.
Qed.

Lemma parse_insert_sql table_name n :
  quote_free table_name = true ->
  n <> 0%nat ->
  parse (insert_sql table_name n) = Some (InsertValues table_name n).
Proof.
  intros Ht Hn. destruct n as [|n]; [done|].
  unfold parse, lex, insert_sql.
  rewrite (lex_run_app _ "INSERT INTO ").
  change (lex_run Between "INSERT INTO ") with (Some (Between, [TWord "INSERT"; TWord "INTO"])).
  cbv beta iota. rewrite (lex_run_name _ _ Ht).
  rewrite (lex_run_app _ " VALUES (").
  change (lex_run (AfterQuote table_name) " VALUES (")
    with (Some (Between, [TName table_name; TWord "VALUES"; TLParen])).
  cbv beta iota. rewrite lex_run_app, lex_run_placeholders.
  change (lex_run Between ")") with (Some (Between, [TRParen])).
  cbv beta iota. cbn [lex_finish]. rewrite app_nil_r.
  cbn [app]. unfold parse_statement.
  destruct n as [|n]; [reflexivity|].
  cbn [param_tokens app].
  change (is_word "INSERT" (TWord "INSERT") && is_word "INTO" (TWord "INTO")
          && is_word "VALUES" (TWord "VALUES")) with true.
  cbv iota.
  change (TParam :: TComma :: param_tokens n ++ [TRParen])
    with (param_tokens (S n) ++ [TRParen]).
  by rewrite parse_params_tokens.
Qed.

End Statements.

(** ** The statements at the store *)

Lemma contains_app c (a b : string) :
  PyStr.contains c (a +:+ b) = PyStr.contains c a || PyStr.contains c b.
Proof.
  induction a as [|x a IH]; [done|].
  rewrite append_cons. simpl. by rewrite IH, orb_assoc.
Qed.

Lemma plain_name_parts s :
  plain_name s = true -> quote_free s = true /\ PyStr.contains NUL s = false.
Proof.
  unfold plain_name. intros H. apply andb_true_iff in H as [H1 H2].
  split; [done | by apply negb_true_iff].
Qed.

Lemma plain_names_quote_free header_row :
  forallb plain_name header_row = true -> forallb quote_free header_row = true.
Proof.
  induction header_row as [|c h IH]; [done|]. cbn [forallb].
  intros H. apply andb_true_iff in H as [Hc Hh].
  apply plain_name_parts in Hc as [Hc _]. by rewrite Hc, IH.
Qed.

Lemma columns_no_nul header_row :
  forallb plain_name header_row = true ->
  PyStr.contains NUL
    (PyStr.join ", " (map (fun column => q +:+ column +:+ q +:+ " TEXT") header_row)) = false.
Proof.
  induction header_row as [|c h IH]; [done|]. cbn [forallb].
  intros H. apply andb_true_iff in H as [Hc Hh].
  apply plain_name_parts in Hc as [_ Hc].
  destruct h as [|c' h].
  - cbn [map PyStr.join]. by rewrite !contains_app, Hc.
  - change (PyStr.join ", " (map (fun column => q +:+ column +:+ q +:+ " TEXT") (c :: c' :: h)))
      with ((q +:+ c +:+ q +:+ " TEXT") +:+ ", " +:+
            PyStr.join ", " (map (fun column => q +:+ column +:+ q +:+ " TEXT") (c' :: h))).
    by rewrite !contains_app, Hc, (IH Hh).
Qed.

Lemma create_sql_no_nul table_name header_row :
  plain_name table_name = true ->
  forallb plain_name header_row = true ->
  PyStr.contains NUL (create_sql table_name header_row) = false.
Proof.
  intros Ht Hh. apply plain_name_parts in Ht as [_ Ht]. unfold create_sql.
  by rewrite !contains_app, Ht, (columns_no_nul _ Hh).
Qed.

Lemma placeholders_no_nul n :
  PyStr.contains NUL (PyStr.join ", " (repeat "?" n)) = false.
Proof.
  induction n as [|n IH]; [done|]. destruct n as [|n]; [done|].
  change (PyStr.join ", " (repeat "?" (S (S n))))
    with ("?" +:+ ", " +:+ PyStr.join ", " (repeat "?" (S n))).
  by rewrite !contains_app, IH.
Qed.

Lemma insert_sql_no_nul table_name n :
  plain_name table_name = true ->
  PyStr.contains NUL (insert_sql table_name n) = false.
Proof.
  intros Ht. apply plain_name_parts in Ht as [_ Ht]. unfold insert_sql.
  by rewrite !contains_app, Ht, placeholders_no_nul.
Qed.

Lemma execute_create_sql table_name header_row st :
  plain_name table_name = true ->
  header_row <> [] ->
  forallb plain_name header_row = true ->
  create_table_from_csv_header table_name header_row st
  = run_statement (Sql.CreateTableIfNotExists table_name (text_columns header_row)) []
      (log (ev_execute (create_sql table_name header_row) []) st).
Proof.
  intros Ht Hne Hh. unfold create_table_from_csv_header, execute.
  fold (create_sql table_name header_row).
  rewrite create_sql_no_nul by done.
  rewrite parse_create_sql; [done | by apply plain_name_parts in Ht as [] | done
                            | by apply plain_names_quote_free].
Qed.

Lemma execute_insert_sql table_name n r st :
  plain_name table_name = true ->
  n <> 0%nat ->
  execute (insert_sql table_name n) r st
  = run_statement (Sql.InsertValues table_name n) r
      (log (ev_execute (insert_sql table_name n) r) st).
Proof.
  intros Ht Hn. unfold execute. rewrite insert_sql_no_nul by done.
  rewrite parse_insert_sql; [done | by apply plain_name_parts in Ht as [] | done].
Qed.





Lemma create_existing table_name header_row st tb :
  plain_name table_name = true ->
  is_reserved table_name = false ->
  header_row <> [] ->
  forallb plain_name header_row = true ->
  session st !! Sql.nocase table_name = Some tb ->
  create_table_from_csv_header table_name header_row st
  = (Normal tt, log (ev_execute (create_sql table_name header_row) []) st).
Proof.
  intros Ht Hr Hne Hq Hs. rewrite execute_create_sql by done.
  unfold run_statement. rewrite Hr. simpl session. by rewrite Hs.
Qed.

Lemma insert_row_eq table_name header_row r :
  insert_row table_name (length header_row) (PyStr.join ", " (repeat "?" (length header_row))) r
  = if well_formed header_row r then
      try_except (execute (insert_sql table_name (length header_row)) r)
        is_IntegrityError (fun e => print (error_line r e))
    else print (skip_line r).
Proof. reflexivity. Qed.

(** ** Loading the rows of a file *)

Lemma extend_nil tb : extend tb [] = tb.
Proof. destruct tb. unfold extend. simpl. by rewrite app_nil_r. Qed.

Lemma extend_add_row tb r rs : extend (add_row tb r) rs = extend tb (r :: rs).
Proof. unfold extend, add_row. simpl. by rewrite <- app_assoc. Qed.

Lemma for_each_cons {A} (x : A) rest body st :
  for_each (x :: rest) body st =
  match body x st with
  | (Normal _, st') => for_each rest body st'
  | (Raise e, st') => (Raise e, st')
  end.
Proof. reflexivity. Qed.

Section Loading.

Variables (table_name : string) (header_row : list string).
Hypothesis name_ok : plain_name table_name = true.
Hypothesis header_ok : header_row <> [].

Let n := length header_row.
Let body := insert_row table_name n (PyStr.join ", " (repeat "?" n)).

Lemma n_pos : n <> 0%nat.
Proof using All. unfold n. by destruct header_row. Qed.

Lemma body_skip r st :
  well_formed header_row r = false ->
  body r st = print (skip_line r) st.
Proof using All. intros H. unfold body, n. by rewrite insert_row_eq, H. Qed.

Lemma body_insert r st :
  well_formed header_row r = true ->
  body r st =
  try_except (run_statement (Sql.InsertValues table_name n) r)
    is_IntegrityError (fun e => print (error_line r e))
    (log (ev_execute (insert_sql table_name n) r) st).
Proof using All.
  intros H. unfold body, n. rewrite insert_row_eq, H.
  unfold try_except. rewrite execute_insert_sql by (done || apply n_pos). done.
Qed.

(** The rows of a file meet a table of the header's arity. *)
Lemma load_rows data : forall st tb,
  session st !! Sql.nocase table_name = Some tb ->
  length (tbl_columns tb) = n ->
  integrity_only (tbl_guard tb) ->
  exists st',
    for_each data body st = (Normal tt, st') /\
    session st' =
      <[Sql.nocase table_name := extend tb (fst (loaded header_row (tbl_guard tb) (tbl_rows tb) data))]> (session st) /\
    store st' = store st /\
    stdout st' = stdout st ++ snd (loaded header_row (tbl_guard tb) (tbl_rows tb) data) /\
    in_transaction st' = in_transaction st || existsb (well_formed header_row) data.
Proof using All.
  induction data as [|r rest IH]; intros st tb Hs Hc Hg.
  - exists st. simpl. rewrite extend_nil, insert_id by done.
    by rewrite app_nil_r, orb_false_r.
  - rewrite for_each_cons. cbn [loaded existsb].
    destruct (well_formed header_row r) eqn:Hw.
    + rewrite body_insert by done. unfold try_except, run_statement.
      cbn [session log]. rewrite Hs, Hc, Nat.eqb_refl. cbn [negb].
      unfold well_formed in Hw. fold n in Hw. rewrite Hw. cbn [negb].
      destruct (tbl_guard tb (tbl_rows tb) r) as [e|] eqn:Eg.
      * rewrite (Hg _ _ _ Eg).
        destruct (IH (snd (print (error_line r e)
                     (write_records (log (ev_execute (insert_sql table_name n) r) st) (session st))))
                  tb) as (st' & Hrun & Hses & Hsto & Hout & Htx); [done..|].
        exists st'. cbn [print snd] in *. rewrite Hrun.
        destruct (loaded header_row (tbl_guard tb) (tbl_rows tb) rest) as [rs ds].
        cbn [fst snd session store stdout in_transaction write_records log] in *.
        rewrite Hses, Hsto, Hout, Htx, <- app_assoc, orb_true_r. done.
      * pose (tb1 := add_row tb r).
        destruct (IH (write_records (log (ev_execute (insert_sql table_name n) r) st)
                       (<[Sql.nocase table_name := tb1]> (session st))) tb1)
          as (st' & Hrun & Hses & Hsto & Hout & Htx).
        { cbn [session write_records]. apply lookup_insert_eq. }
        { done. }
        { done. }
        exists st'. fold tb1. rewrite Hrun.
        change (tbl_guard tb1) with (tbl_guard tb) in *.
        change (tbl_rows tb1) with (tbl_rows tb ++ [r]) in *.
        destruct (loaded header_row (tbl_guard tb) (tbl_rows tb ++ [r]) rest) as [rs ds].
        cbn [fst snd session store stdout in_transaction write_records log] in *.
        rewrite Hses, Hsto, Hout, Htx, insert_insert_eq.
        unfold tb1. rewrite extend_add_row, orb_true_r. done.
    + rewrite body_skip by done.
      destruct (IH (snd (print (skip_line r) st)) tb) as (st' & Hrun & Hses & Hsto & Hout & Htx);
        [done..|].
      exists st'. cbn [print snd] in *. rewrite Hrun.
      destruct (loaded header_row (tbl_guard tb) (tbl_rows tb) rest) as [rs ds].
      cbn [fst snd session store stdout in_transaction] in *.
      rewrite Hses, Hsto, Hout, Htx, <- app_assoc. done.
Qed.

(** The rows of a file meet a table of another arity: the first well-formed
    row makes the store raise. *)


End Loading.

(** ** One source file *)


Section File.

Variable fs : filesystem.
Variables (csv_file_path text : string) (broken : option exn).
Variables (header_row : list string) (data : list row) (e_end : option exn).
Hypothesis file_ok : fs csv_file_path = text_file text broken.
Hypothesis records_ok :
  csv_reader text broken = {| pending := header_row :: data; ending := e_end |}.

Lemma insert_csv_to_table_rows table_name st :
  insert_csv_to_table fs table_name csv_file_path st
  = (for_each data
       (insert_row table_name (length header_row)
          (PyStr.join ", " (repeat "?" (length header_row))))
     >> match e_end with Some e => raise e | None => ret tt end)
      (log (ev_open csv_file_path) st).
Proof using All.
  unfold insert_csv_to_table, bind at 1, open. rewrite file_ok.
  cbn [fst snd]. rewrite records_ok. reflexivity.
Qed.

Lemma import_file_steps st :
  import_file fs csv_file_path st
  = (create_table_from_csv_header (sanitize_table_name csv_file_path) header_row
     >> insert_csv_to_table fs (sanitize_table_name csv_file_path) csv_file_path)
      (log (ev_open csv_file_path) st).
Proof using All.
  unfold import_file, bind at 1, open. rewrite file_ok.
  cbn [fst snd]. rewrite records_ok. unfold bind, next. cbn [pending fst snd ret].
  destruct (create_table_from_csv_header _ _ _) as [[[]|e] st1]; reflexivity.
Qed.


Let table_name := sanitize_table_name csv_file_path.




End File.

(** ** What no step of the loop over the files does

    Reading and executing statements only add events of work to the trace,
    keep the connection consistent with the store, and leave the durable
    records of every table as they are. *)

Section Keeping.

Variable R : state -> state -> Prop.
Hypothesis R_refl : forall st, R st st.
Hypothesis R_trans : forall st1 st2 st3, R st1 st2 -> R st2 st3 -> R st1 st3.

Lemma keeps_ret {A} (a : A) : keeps R (ret a).
Proof using R_refl. intros st o st' [= <- <-]. apply R_refl. Qed.

Lemma keeps_raise {A} e : keeps R (@raise A e).
Proof using R_refl. intros st o st' [= <- <-]. apply R_refl. Qed.

Lemma keeps_bind {A B} (m : M A) (k : A -> M B) :
  keeps R m -> (forall a, keeps R (k a)) -> keeps R (bind m k).
Proof using R_trans.
  intros Hm Hk st o st' H. unfold bind in H.
  destruct (m st) as [[a|e] st1] eqn:E.
  - eapply R_trans; [by eapply Hm | by eapply Hk].
  - injection H as <- <-. by eapply Hm.
Qed.

Lemma keeps_try_except {A} (m : M A) caught handler :
  keeps R m -> (forall e, keeps R (handler e)) -> keeps R (try_except m caught handler).
Proof using R_trans.
  intros Hm Hh st o st' H. unfold try_except in H.
  destruct (m st) as [[a|e] st1] eqn:E.
  - injection H as <- <-. by eapply Hm.
  - destruct (caught e).
    + eapply R_trans; [by eapply Hm | by eapply Hh].
    + injection H as <- <-. by eapply Hm.
Qed.

Lemma keeps_for_each {A} (xs : list A) body :
  (forall x, keeps R (body x)) -> keeps R (for_each xs body).
Proof using R_refl R_trans.
  intros Hb. induction xs as [|x xs IH]; [apply keeps_ret|].
  apply keeps_bind; [apply Hb | intros _; apply IH].
Qed.

Lemma keeps_next r : keeps R (next r).
Proof using R_refl.
  unfold next. destruct (pending r); [|apply keeps_ret].
  destruct (ending r); apply keeps_raise.
Qed.

(** The two loops of the program keep what printing, opening a file and
    executing the statements of the program keep. *)
Hypothesis R_print : forall line, keeps R (print line).
Hypothesis R_open : forall fs path, keeps R (open fs path).

Lemma keeps_insert_csv_to_table fs table_name path :
  (forall placeholders r,
     keeps R (execute ("INSERT INTO " +:+ q +:+ table_name +:+ q +:+ " VALUES ("
                       +:+ placeholders +:+ ")") r)) ->
  keeps R (insert_csv_to_table fs table_name path).
Proof using All.
  intros Hexec. unfold insert_csv_to_table.
  apply keeps_bind; [apply R_open | intros csvfile].
  apply keeps_bind; [apply keeps_next | intros hr].
  apply keeps_bind.
  - apply keeps_for_each. intros r. unfold insert_row.
    destruct (_ =? _)%nat; [|apply R_print].
    apply keeps_try_except; [apply Hexec | intros e; apply R_print].
  - intros _. destruct (ending _); [apply keeps_raise | apply keeps_ret].
Qed.

Lemma keeps_import_file fs path :
  (forall sql params, keeps R (execute sql params)) ->
  keeps R (import_file fs path).
Proof using All.
  intros Hexec. unfold import_file.
  apply keeps_bind; [apply R_open | intros csvfile].
  apply keeps_bind; [apply keeps_next | intros hr].
  apply keeps_bind; [apply Hexec | intros _].
  apply keeps_bind; [apply keeps_next | intros _].
  apply keeps_insert_csv_to_table. intros. apply Hexec.
Qed.

End Keeping.

Lemma steady_refl st : steady st st.
Proof. split; [exists []; by rewrite app_nil_r | done]. Qed.

Lemma steady_trans st1 st2 st3 : steady st1 st2 -> steady st2 st3 -> steady st1 st3.
Proof.
  intros [(t1 & E1 & W1) C1] [(t2 & E2 & W2) C2]. split.
  - exists (t1 ++ t2). rewrite E2, E1, <- app_assoc. split; [done|].
    by rewrite forallb_app, W1, W2.
  - intros H. destruct (C1 H) as [H2 R1]. destruct (C2 H2) as [H3 R2].
    split; [done|]. intros name. by rewrite R2, R1.
Qed.

Lemma steady_log ev st : is_work ev = true -> steady st (log ev st).
Proof.
  intros H. split; [exists [ev]; simpl; by rewrite H | done].
Qed.

Lemma steady_print line : keeps steady (print line).
Proof.
  intros st o st' [= <- <-]. split; [exists []; by rewrite app_nil_r | done].
Qed.

Lemma steady_open fs path : keeps steady (open fs path).
Proof.
  intros st o st' H. unfold open in H.
  destruct (fs path); injection H as <- <-; by apply steady_log.
Qed.

Lemma rows_of_insert_empty (db : gmap string table) key name t :
  db !! key = None -> tbl_rows t = [] ->
  rows_of (<[key := t]> db) name = rows_of db name.
Proof.
  intros Hk Ht. unfold rows_of.
  destruct (decide (key = Sql.nocase name)) as [<-|Hne].
  - by rewrite lookup_insert_eq, Hk.
  - by rewrite lookup_insert_ne.
Qed.

Lemma steady_run_statement s params : keeps steady (run_statement s params).
Proof.
  intros st o st' H. unfold run_statement in H.
  destruct s as [name columns|name arity].
  - destruct (is_reserved name); [injection H as <- <-; apply steady_refl|].
    destruct (session st !! Sql.nocase name) eqn:Hs.
    { destruct params; injection H as <- <-; apply steady_refl. }
    destruct (duplicate_column _ _); [injection H as <- <-; apply steady_refl|].
    destruct (_ <? _)%nat; [injection H as <- <-; apply steady_refl|].
    destruct params; injection H as <- <-; [|apply steady_refl].
    split; [exists []; by rewrite app_nil_r|].
    intros Hc. unfold consistent, write_schema in *. cbn.
    destruct (in_transaction st) eqn:Ht; [done|].
    split; [done|]. intros name'. rewrite <- (Hc eq_refl).
    by apply rows_of_insert_empty.
  - destruct (session st !! Sql.nocase name) eqn:Hs;
      [|injection H as <- <-; apply steady_refl].
    destruct (negb _); [injection H as <- <-; apply steady_refl|].
    destruct (negb _);
      [injection H as <- <-; split; [exists []; by rewrite app_nil_r | done]|].
    destruct (tbl_guard _ _ _); injection H as <- <-;
      (split; [exists []; by rewrite app_nil_r | done]).
Qed.

Lemma steady_execute sql params : keeps steady (execute sql params).
Proof.
  intros st o st' H. unfold execute in H.
  eapply steady_trans; [apply (steady_log (ev_execute sql params)); done|].
  destruct (PyStr.contains NUL sql); [injection H as <- <-; apply steady_refl|].
  destruct (Sql.parse sql).
  - by eapply steady_run_statement.
  - injection H as <- <-. apply steady_refl.
Qed.

Lemma steady_import_file fs path : keeps steady (import_file fs path).
Proof.
  apply (keeps_import_file steady steady_refl steady_trans steady_print steady_open).
  apply steady_execute.
Qed.

Lemma preserves_files fs paths : keeps steady (for_each paths (import_file fs)).
Proof.
  apply (keeps_for_each steady steady_refl steady_trans). apply steady_import_file.
Qed.

(** ** No data row changes the columns of a table *)






(** Whatever the table name, the text of an insertion is read as an
    insertion or refused. *)
Lemma insert_text_shape rest :
  match Sql.parse ("INSERT INTO " +:+ rest) with
  | Some (Sql.CreateTableIfNotExists _ _) => False
  | _ => True
  end.
Proof.
  unfold Sql.parse, Sql.lex. rewrite lex_run_app.
  change (Sql.lex_run Sql.Between "INSERT INTO ")
    with (Some (Sql.Between, [Sql.TWord "INSERT"; Sql.TWord "INTO"])).
  cbv beta iota.
  destruct (Sql.lex_run Sql.Between rest) as [[m ts]|]; [|done].
  destruct (Sql.lex_finish m) as [ts'|]; [|done].
  cbn [app]. generalize (ts ++ ts'). intros l.
  unfold Sql.parse_statement.
  change (Sql.is_word "CREATE" (Sql.TWord "INSERT")) with false.
  cbn [andb].
  repeat case_match; done.
Qed.



(** ** The whole invocation *)

Lemma for_each_app {A} (xs ys : list A) body st :
  for_each (xs ++ ys) body st =
  match for_each xs body st with
  | (Normal _, st') => for_each ys body st'
  | (Raise e, st') => (Raise e, st')
  end.
Proof.
  revert st. induction xs as [|x xs IH]; intros st; [done|].
  cbn [app]. rewrite !for_each_cons.
  destruct (body x st) as [[[]|e] st1]; [apply IH | done].
Qed.

Lemma add_csvs_to_database_eq fs db_name paths st :
  add_csvs_to_database fs db_name paths st =
  match for_each paths (import_file fs) (snd (connect db_name st)) with
  | (Normal _, st1) =>
      (Normal tt, commit_transaction (log (ev_exit true) (commit_transaction (log ev_commit st1))))
  | (Raise e, st1) => (Raise e, rollback_transaction (log (ev_exit false) st1))
  end.
Proof.
  unfold add_csvs_to_database, with_connection, bind, connect, conn_commit. cbn [snd].
  destruct (for_each paths (import_file fs) _) as [[[]|e] st1]; reflexivity.
Qed.

Lemma consistent_connect db_name st : consistent (snd (connect db_name st)).
Proof. done. Qed.

Lemma import_file_opens fs path st o st' :
  import_file fs path st = (o, st') -> steady (log (ev_open path) st) st'.
Proof.
  unfold import_file, bind at 1, open. intros H.
  destruct (fs path) as [e|text broken].
  - injection H as <- <-. apply steady_refl.
  - revert H. generalize (log (ev_open path) st). intros s H.
    revert s o st' H. change (keeps steady
      (let* hr := next (csv_reader (fst (text, broken)) (snd (text, broken))) in
       create_table_from_csv_header (sanitize_table_name path) (fst hr) >>
       next (csv_reader (fst (text, broken)) (snd (text, broken))) >>
       insert_csv_to_table fs (sanitize_table_name path) path)).
    apply (keeps_bind steady steady_trans); [apply (keeps_next steady steady_refl) | intros hr].
    apply (keeps_bind steady steady_trans); [apply steady_execute | intros _].
    apply (keeps_bind steady steady_trans); [apply (keeps_next steady steady_refl) | intros _].
    apply (keeps_insert_csv_to_table steady steady_refl steady_trans steady_print steady_open).
    intros. apply steady_execute.
Qed.

Lemma import_file_normal fs path st st' :
  import_file fs path st = (Normal tt, st') -> reading_fails fs path = false.
Proof.
  unfold reading_fails, import_file, bind at 1, open.
  destruct (fs path) as [e|text broken] eqn:Hfs; [done|].
  cbn [fst snd]. unfold bind at 1, next at 1.
  destruct (csv_reader text broken) as [[|h data] en] eqn:Hrd; cbn [pending ending].
  { by destruct en. }
  unfold ret at 1. cbn [fst snd]. unfold bind at 1.
  destruct (create_table_from_csv_header _ _ _) as [[[]|e] s1]; [|done].
  unfold bind at 1, next at 1. cbn [pending ret].
  unfold insert_csv_to_table, bind at 1, open. rewrite Hfs. cbn [fst snd].
  rewrite Hrd. unfold bind at 1, next at 1. cbn [pending ret fst snd].
  unfold for_rows, bind. cbn [pending ending].
  destruct (for_each data _ _) as [[[]|e] s2]; [|done].
  by destruct en.
Qed.

Lemma files_normal fs paths : forall st st',
  for_each paths (import_file fs) st = (Normal tt, st') ->
  exists work,
    trace st' = trace st ++ work /\ forallb is_work work = true /\
    forall p, In p paths -> In (ev_open p) work /\ reading_fails fs p = false.
Proof.
  induction paths as [|p paths IH]; intros st st' H.
  - injection H as <-. exists []. by rewrite app_nil_r.
  - rewrite for_each_cons in H.
    destruct (import_file fs p st) as [[[]|e] s1] eqn:Hp; [|done].
    pose proof (import_file_normal _ _ _ _ Hp) as Hr.
    apply import_file_opens in Hp as [(t1 & E1 & W1) _].
    destruct (IH _ _ H) as (w & E2 & W2 & Hall).
    exists (ev_open p :: t1 ++ w). cbn [trace log] in E1.
    split; [by rewrite E2, E1, <- !app_assoc|].
    split; [cbn; by rewrite forallb_app, W1, W2|].
    intros p' [<-|Hin]; [split; [by left | done]|].
    destruct (Hall p' Hin) as [Ho Hf]. split; [|done].
    right. apply in_or_app. by right.
Qed.

(** ** What a run that fails leaves in the store *)

Lemma settled_refl st : settled st st.
Proof. intros H. split; [done|]. split; [done|]. intros key t Hk. by left. Qed.

Lemma settled_trans st1 st2 st3 : settled st1 st2 -> settled st2 st3 -> settled st1 st3.
Proof.
  intros S1 S2 H. destruct (S1 H) as (H2 & K1 & N1). destruct (S2 H2) as (H3 & K2 & N2).
  split; [done|]. split.
  - intros key t Hk. by apply K2, K1.
  - intros key t Hk. destruct (N2 _ _ Hk) as [Hk2|He]; [by apply N1 | by right].
Qed.

Lemma settled_same st st' :
  store st' = store st -> session st' = session st ->
  (in_transaction st = false -> in_transaction st' = false -> True) ->
  (in_transaction st' = false -> in_transaction st = false) ->
  settled st st'.
Proof.
  intros Hs Hv _ Ht Hc. split.
  - intros H. rewrite Hs, Hv. apply Hc, Ht, H.
  - rewrite Hs. split; [done|]. intros key t Hk. by left.
Qed.

Lemma settled_print line : keeps settled (print line).
Proof. intros st o st' [= <- <-]. by apply settled_same. Qed.

Lemma settled_open fs path : keeps settled (open fs path).
Proof.
  intros st o st' H. unfold open in H.
  destruct (fs path); injection H as <- <-; by apply settled_same.
Qed.

Lemma settled_write_records st db : settled st (write_records st db).
Proof.
  intros Hc. split; [done|]. split; [done|]. intros key t Hk. by left.
Qed.

Lemma settled_run_statement s params : keeps settled (run_statement s params).
Proof.
  intros st o st' H. unfold run_statement in H.
  destruct s as [name columns|name arity].
  - destruct (is_reserved name); [injection H as <- <-; apply settled_refl|].
    destruct (session st !! Sql.nocase name) eqn:Hs.
    { destruct params; injection H as <- <-; apply settled_refl. }
    destruct (duplicate_column _ _); [injection H as <- <-; apply settled_refl|].
    destruct (_ <? _)%nat; [injection H as <- <-; apply settled_refl|].
    destruct params; injection H as <- <-; [|apply settled_refl].
    intros Hc. unfold consistent, write_schema in *. cbn.
    destruct (in_transaction st) eqn:Ht.
    { split; [done|]. split; [done|]. intros key t Hk. by left. }
    rewrite (Hc eq_refl) in Hs. rewrite (Hc eq_refl).
    split; [done|]. split.
    + intros key t Hk. rewrite lookup_insert_ne; [done|]. intros <-. congruence.
    + intros key t Hk. destruct (decide (Sql.nocase name = key)) as [<-|Hne].
      * rewrite lookup_insert_eq in Hk. injection Hk as <-. by right.
      * rewrite lookup_insert_ne in Hk by done. by left.
  - destruct (session st !! Sql.nocase name) as [tb|] eqn:Hs;
      [|injection H as <- <-; apply settled_refl].
    destruct (negb _); [injection H as <- <-; apply settled_refl|].
    destruct (negb _); [injection H as <- <-; apply settled_write_records|].
    destruct (tbl_guard _ _ _); injection H as <- <-; apply settled_write_records.
Qed.

Lemma settled_execute sql params : keeps settled (execute sql params).
Proof.
  intros st o st' H. unfold execute in H.
  eapply (settled_trans _ (log (ev_execute sql params) st)); [by apply settled_same|].
  destruct (PyStr.contains NUL sql); [injection H as <- <-; apply settled_refl|].
  destruct (Sql.parse sql).
  - by eapply settled_run_statement.
  - injection H as <- <-. apply settled_refl.
Qed.

Lemma settled_files fs paths : keeps settled (for_each paths (import_file fs)).
Proof.
  apply (keeps_for_each settled settled_refl settled_trans). intros p.
  apply (keeps_import_file settled settled_refl settled_trans settled_print settled_open).
  apply settled_execute.
Qed.

Lemma commit_idle st :
  in_transaction st = false -> commit_transaction st = st.
Proof. destruct st. cbn. by intros ->. Qed.

Lemma committed_session fs db_name paths st st1 :
  for_each paths (import_file fs) (snd (connect db_name st)) = (Normal tt, st1) ->
  store (commit_transaction (log ev_commit st1)) = session st1.
Proof.
  intros Hrun. cbn. destruct (in_transaction st1) eqn:Ht; [done|].
  pose proof (preserves_files _ _ _ _ _ Hrun) as [_ Hc].
  destruct (Hc (consistent_connect db_name st)) as [Hc1 _].
  symmetry. by apply Hc1.
Qed.

(** C5.  A run that completes: the program's commit comes once, after the
    work on every source file; it makes durable what the files wrote (the
    store then holds what the connection saw after the last file) and closes
    the transaction, so that the exit from the connection's scope finds
    nothing to commit.  A run that raises never commits: the connection is
    rolled back, the tables the store held are as they were, with their
    records, and whatever else the store then holds is a table without
    records.  A file whose reading fails makes the run raise; the error that
    a file raises leaves the run as it is, after the rollback. *)
Theorem commit_once_after_all_files fs db_name csv_file_paths st :
  let r := add_csvs_to_database fs db_name csv_file_paths st in
  (exists work st1,
     forallb is_work work = true /\
     match fst r with
     | Normal _ =>
         for_each csv_file_paths (import_file fs) (snd (connect db_name st))
         = (Normal tt, st1) /\
         trace (snd r)
         = trace st ++ [ev_connect db_name] ++ work ++ [ev_commit; ev_exit true] /\
         (forall p, In p csv_file_paths -> In (ev_open p) work) /\
         store (snd (conn_commit st1)) = session st1 /\
         in_transaction (snd (conn_commit st1)) = false /\
         snd r = log (ev_exit true) (snd (conn_commit st1)) /\
         store (snd r) = session st1 /\
         session (snd r) = session st1
     | Raise e =>
         for_each csv_file_paths (import_file fs) (snd (connect db_name st))
         = (Raise e, st1) /\
         trace (snd r) = trace st ++ [ev_connect db_name] ++ work ++ [ev_exit false] /\
         snd r = rollback_transaction (log (ev_exit false) st1) /\
         in_transaction (snd r) = false /\
         session (snd r) = store (snd r) /\
         (forall name, rows_of (store (snd r)) name = rows_of (store st) name) /\
         (forall key t, store st !! key = Some t -> store (snd r) !! key = Some t) /\
         (forall key t,
            store (snd r) !! key = Some t -> store st !! key = Some t \/ tbl_rows t = [])
     end) /\
  (forall p, In p csv_file_paths -> reading_fails fs p = true -> exists e, fst r = Raise e) /\
  (forall before p after st1 e st2,
     csv_file_paths = before ++ p :: after ->
     for_each before (import_file fs) (snd (connect db_name st)) = (Normal tt, st1) ->
     import_file fs p st1 = (Raise e, st2) ->
     r = (Raise e, rollback_transaction (log (ev_exit false) st2))) /\
  (forall p e st1,
     fs p = no_file e -> import_file fs p st1 = (Raise e, log (ev_open p) st1)).
Proof.
  intros r. subst r. split; [|split; [|split]].
  - rewrite add_csvs_to_database_eq.
    destruct (for_each csv_file_paths (import_file fs) (snd (connect db_name st)))
      as [[[]|e] st1] eqn:Hrun; cbn [fst snd].
    + destruct (files_normal _ _ _ _ Hrun) as (work & E & W & Hall).
      pose proof (committed_session fs db_name csv_file_paths st st1 Hrun) as Hs.
      exists work, st1. split; [done|]. split; [done|].
      rewrite commit_idle by done.
      cbn [trace log commit_transaction conn_commit snd]. rewrite E.
      cbn [connect snd trace log].
      split; [by rewrite <- !app_assoc|].
      split; [intros p Hp; by apply Hall|].
      cbn [store session log commit_transaction in_transaction] in *.
      by rewrite Hs.
    + pose proof (preserves_files _ _ _ _ _ Hrun) as [(work & E & W) Hc].
      pose proof (settled_files _ _ _ _ _ Hrun (consistent_connect db_name st))
        as (Hc1 & Hkept & Hnew).
      exists work, st1. split; [done|]. split; [done|].
      cbn [trace log rollback_transaction store session in_transaction].
      rewrite E. cbn [connect snd trace log].
      split; [by rewrite <- !app_assoc|]. split; [done|]. split; [done|].
      split; [destruct (in_transaction st1) eqn:Ht; [done | by apply Hc1]|].
      destruct (Hc (consistent_connect db_name st)) as [_ Hr].
      split; [intros name; by rewrite Hr|]. split; [exact Hkept | exact Hnew].
  - intros p Hp Hf. rewrite add_csvs_to_database_eq.
    destruct (for_each csv_file_paths (import_file fs) (snd (connect db_name st)))
      as [[[]|e] st1] eqn:Hrun; cbn [fst]; [|by eauto].
    destruct (files_normal _ _ _ _ Hrun) as (work & E & W & Hall).
    destruct (Hall p Hp) as [_ Hf']. congruence.
  - intros before p after st1 e st2 -> Hpre Hp.
    by rewrite add_csvs_to_database_eq, for_each_app, Hpre, for_each_cons, Hp.
  - intros p e st1 Hfs. unfold import_file, bind at 1, open. by rewrite Hfs.
Qed.

(** C10.  Once the files before it are imported, a source file that holds no
    line makes the read of its header raise [StopIteration] before any
    statement is executed for it; the error leaves the invocation, no later
    file is opened, nothing is committed and the durable records are the
    original ones. *)
Theorem empty_file_aborts fs db_name before p after st st1 :
  for_each before (import_file fs) (snd (connect db_name st)) = (Normal tt, st1) ->
  fs p = text_file EmptyString None ->
  import_file fs p st1 = (Raise StopIteration, log (ev_open p) st1) /\
  add_csvs_to_database fs db_name (before ++ p :: after) st
  = (Raise StopIteration,
     rollback_transaction (log (ev_exit false) (log (ev_open p) st1))) /\
  trace (snd (add_csvs_to_database fs db_name (before ++ p :: after) st))
  = trace st1 ++ [ev_open p; ev_exit false] /\
  forall name,
    rows_of (store (snd (add_csvs_to_database fs db_name (before ++ p :: after) st))) name
    = rows_of (store st) name.
Proof.
  intros Hpre Hfs.
  assert (Hp : import_file fs p st1 = (Raise StopIteration, log (ev_open p) st1)).
  { unfold import_file, bind at 1, open. by rewrite Hfs. }
  split; [done|].
  assert (Hrun : add_csvs_to_database fs db_name (before ++ p :: after) st
    = (Raise StopIteration,
       rollback_transaction (log (ev_exit false) (log (ev_open p) st1)))).
  { rewrite add_csvs_to_database_eq, for_each_app, Hpre, for_each_cons, Hp. done. }
  split; [done|]. rewrite Hrun. cbn [snd rollback_transaction store trace log].
  split; [by rewrite <- app_assoc|].
  pose proof (preserves_files _ _ _ _ _ Hpre) as [_ Hc].
  destruct (Hc (consistent_connect db_name st)) as [_ Hr]. apply Hr.
Qed.

(** C9.  With fewer than three arguments (the script, a store and at least
    one source file) the program prints its usage line and exits with status
    [1], without any event of connecting, opening or executing, and with the
    store as it was. *)
Theorem usage_error_without_io fs argv st :
  (length argv < 3)%nat ->
  let r := main fs argv st in
  fst r = Raise (SystemExit 1) /\
  exit_status (fst r) <> 0 /\
  stdout (snd r) = stdout st ++ ["Usage: python script.py database.db csv1.csv csv2.csv ..."] /\
  trace (snd r) = trace st /\
  store (snd r) = store st /\
  session (snd r) = session st.
Proof.
  intros H r. subst r. unfold main.
  apply Nat.ltb_lt in H. rewrite H. done.
Qed.

(** C3.  A well-formed row whose insertion raises: an [IntegrityError] is
    caught, a diagnostic with the row and the error is printed, and the loop
    goes on with the next row; an error of any other class leaves the loop
    and the whole invocation, which ends raising it after the rollback of the
    connection's scope. *)
Theorem only_integrity_errors_caught
  fs db_name before_files p after_files text broken header_row
  before_rows r after_rows e_end st st1 st2 st3 st4 e :
  let table_name := sanitize_table_name p in
  let n := length header_row in
  let body := insert_row table_name n (PyStr.join ", " (repeat "?" n)) in
  for_each before_files (import_file fs) (snd (connect db_name st)) = (Normal tt, st1) ->
  fs p = text_file text broken ->
  csv_reader text broken
  = {| pending := header_row :: before_rows ++ r :: after_rows; ending := e_end |} ->
  create_table_from_csv_header table_name header_row (log (ev_open p) st1) = (Normal tt, st2) ->
  for_each before_rows body (log (ev_open p) st2) = (Normal tt, st3) ->
  length r = n ->
  execute (insert_sql table_name n) r st3 = (Raise e, st4) ->
  if is_IntegrityError e then
    for_each (r :: after_rows) body st3
    = for_each after_rows body (snd (print (error_line r e) st4))
  else
    for_each (r :: after_rows) body st3 = (Raise e, st4) /\
    add_csvs_to_database fs db_name (before_files ++ p :: after_files) st
    = (Raise e, rollback_transaction (log (ev_exit false) st4)).
Proof.
  intros table_name n body Hpre Hfs Hrd Hcreate Hrows Hlen Hexec.
  assert (Hbody : body r st3 =
          if is_IntegrityError e then print (error_line r e) st4 else (Raise e, st4)).
  { unfold body, n. rewrite insert_row_eq. unfold well_formed.
    fold n. rewrite Hlen, Nat.eqb_refl. unfold try_except. by rewrite Hexec. }
  destruct (is_IntegrityError e) eqn:He.
  - rewrite for_each_cons, Hbody. reflexivity.
  - assert (Hloop : for_each (r :: after_rows) body st3 = (Raise e, st4)).
    { by rewrite for_each_cons, Hbody. }
    split; [done|].
    rewrite add_csvs_to_database_eq, for_each_app, Hpre, for_each_cons.
    rewrite (import_file_steps fs p text broken header_row _ e_end Hfs Hrd).
    unfold bind at 1. fold table_name. rewrite Hcreate.
    rewrite (insert_csv_to_table_rows fs p text broken header_row _ e_end Hfs Hrd).
    unfold bind at 1. fold n. fold body. rewrite for_each_app, Hrows, Hloop. done.
Qed.

(** C6, amended.  Provisioning a table that already exists, with a column
    list that is not empty and whose names hold no double quote, under a name
    that holds no double quote and is not reserved, raises no error and
    leaves the session and the store, hence the table's columns, as they
    were, whatever the columns now supplied. *)
Theorem provisioning_existing_table table_name header_row st tb :
  plain_name table_name = true ->
  is_reserved table_name = false ->
  header_row <> [] ->
  forallb plain_name header_row = true ->
  session st !! Sql.nocase table_name = Some tb ->
  let r := create_table_from_csv_header table_name header_row st in
  fst r = Normal tt /\
  session (snd r) = session st /\
  store (snd r) = store st /\
  session (snd r) !! Sql.nocase table_name = Some tb.
Proof.
  intros Ht Hr Hne Hq Hs r. subst r.
  rewrite (create_existing _ _ _ tb) by done. done.
Qed.


(** ** Counting what a file loads *)

Lemma loaded_counts header_row guard data : forall present,
  (length (fst (loaded header_row guard present data))
   + length (refused header_row guard present data)
   = length (List.filter (well_formed header_row) data))%nat /\
  (length (snd (loaded header_row guard present data))
   = length (List.filter (fun r => negb (well_formed header_row r)) data)
     + length (refused header_row guard present data))%nat.
Proof.
  induction data as [|r rest IH]; intros present; [done|].
  cbn [loaded refused List.filter].
  destruct (well_formed header_row r); cbn [negb].
  - destruct (guard present r).
    + destruct (IH present) as [H1 H2].
      destruct (loaded header_row guard present rest). cbn [fst snd length] in *. lia.
    + destruct (IH (present ++ [r])) as [H1 H2].
      destruct (loaded header_row guard (present ++ [r]) rest). cbn [fst snd length] in *. lia.
  - destruct (IH present) as [H1 H2].
    destruct (loaded header_row guard present rest). cbn [fst snd length] in *. lia.
Qed.

Lemma loaded_skip header_row guard before r after : forall present,
  well_formed header_row r = false ->
  loaded header_row guard present (before ++ r :: after)
  = (fst (loaded header_row guard present before)
     ++ fst (loaded header_row guard
               (present ++ fst (loaded header_row guard present before)) after),
     snd (loaded header_row guard present before)
     ++ skip_line r
     :: snd (loaded header_row guard
               (present ++ fst (loaded header_row guard present before)) after)).
Proof.
  induction before as [|x before IH]; intros present Hr.
  - cbn [app loaded fst snd]. rewrite Hr, app_nil_r.
    by destruct (loaded header_row guard present after).
  - cbn [app loaded]. destruct (well_formed header_row x).
    + destruct (guard present x).
      * rewrite (IH present Hr).
        destruct (loaded header_row guard present before). done.
      * rewrite (IH (present ++ [x]) Hr).
        destruct (loaded header_row guard (present ++ [x]) before) as [rs ds].
        cbn [fst snd]. by rewrite <- app_assoc.
    + rewrite (IH present Hr).
      destruct (loaded header_row guard present before). done.
Qed.

(** C1, amended.  For a source file loaded into a table of the header's
    arity whose guard rejects only by integrity violations, loading
    completes; the records inserted are the well-formed data rows the store
    does not reject, so their number is the number of well-formed rows less
    the rejected ones; every row that is not well formed is skipped, adds no
    record and exactly one diagnostic, and the rows after it are processed as
    if it were absent. *)
Theorem records_loaded_per_file fs table_name p text broken header_row data st tb :
  fs p = text_file text broken ->
  csv_reader text broken = {| pending := header_row :: data; ending := None |} ->
  plain_name table_name = true ->
  header_row <> [] ->
  session st !! Sql.nocase table_name = Some tb ->
  length (tbl_columns tb) = length header_row ->
  integrity_only (tbl_guard tb) ->
  let r := insert_csv_to_table fs table_name p st in
  let inserted := fst (loaded header_row (tbl_guard tb) (tbl_rows tb) data) in
  let diagnostics := snd (loaded header_row (tbl_guard tb) (tbl_rows tb) data) in
  let rejected := refused header_row (tbl_guard tb) (tbl_rows tb) data in
  fst r = Normal tt /\
  rows_of (session (snd r)) table_name = tbl_rows tb ++ inserted /\
  stdout (snd r) = stdout st ++ diagnostics /\
  (length inserted + length rejected
   = length (List.filter (well_formed header_row) data))%nat /\
  (length diagnostics
   = length (List.filter (fun r => negb (well_formed header_row r)) data)
     + length rejected)%nat /\
  (forall before x after,
     data = before ++ x :: after ->
     well_formed header_row x = false ->
     let first := loaded header_row (tbl_guard tb) (tbl_rows tb) before in
     let second := loaded header_row (tbl_guard tb) (tbl_rows tb ++ fst first) after in
     inserted = fst first ++ fst second /\
     diagnostics = snd first ++ skip_line x :: snd second).
Proof.
  intros Hfs Hrd Ht Hne Hs Hc Hg r inserted diagnostics rejected.
  subst r inserted diagnostics rejected.
  destruct (load_rows table_name header_row Ht Hne data (log (ev_open p) st) tb)
    as (st' & Hrun & Hses & Hsto & Hout & Htx); [done..|].
  assert (E : insert_csv_to_table fs table_name p st = (Normal tt, st')).
  { rewrite (insert_csv_to_table_rows fs p text broken header_row data None Hfs Hrd).
    unfold bind. by rewrite Hrun. }
  rewrite E. cbn [fst snd].
  split; [done|]. split.
  { unfold rows_of. rewrite Hses, lookup_insert_eq. done. }
  split; [done|].
  destruct (loaded_counts header_row (tbl_guard tb) data (tbl_rows tb)) as [H1 H2].
  split; [done|]. split; [done|].
  intros before x after -> Hx. cbn zeta.
  rewrite (loaded_skip _ _ _ _ _ _ Hx). done.
Qed.

(** ** Two files for one table *)

Lemma filter_none {A} (f : A -> bool) l : existsb f l = false -> List.filter f l = [].
Proof.
  induction l as [|x l IH]; [done|]. cbn. destruct (f x); [done|]. apply IH.
Qed.



(** ** Worked inputs *)

Import Scenario.

(** C8.  Importing [people.csv], with the lines [id,name], [1,Alice] and
    [2,Bob,extra], into an empty store ends normally; the store then holds
    the one table [people] with the text columns [id] and [name] and the one
    record [(1, Alice)], and the one diagnostic printed is that of the
    skipped third line, showing its fields. *)
Theorem people_scenario :
  let r := main people_fs ["csvToDb.py"; "people.db"; "people.csv"] (boot ∅) in
  fst r = Normal tt /\
  exit_status (fst r) = 0 /\
  store (snd r)
  = {[ "people" := {| tbl_name := "people";
                      tbl_columns := [("id", "TEXT"); ("name", "TEXT")];
                      tbl_guard := no_guard;
                      tbl_rows := [["1"; "Alice"]] |} ]} /\
  stdout (snd r) = ["Skipping row with incorrect number of fields: ['2', 'Bob', 'extra']"].
Proof. vm_compute. repeat split; reflexivity. Qed.

(** C1 as stated fails: two well-formed data lines, one record inserted. *)
Lemma rows_loaded_counterexample :
  let r := add_csvs_to_database repeat_fs "store.db" ["t.csv"] (boot keyed_store) in
  fst r = Normal tt /\
  pending (csv_reader ("a" +:+ nl +:+ "1" +:+ nl +:+ "1" +:+ nl) None) = [["a"]; ["1"]; ["1"]] /\
  length (List.filter (well_formed ["a"]) [["1"]; ["1"]]) = 2%nat /\
  rows_of (store (snd r)) "t" = [["1"]] /\
  stdout (snd r) = ["Error inserting row: ['1']. Error: UNIQUE constraint failed: t.a"].
Proof. vm_compute. repeat split; reflexivity. Qed.

(** The guard of [keyed_table] rejects by integrity violations only. *)
Lemma unique_guard_integrity : integrity_only unique_guard.
Proof.
  intros present r e. unfold unique_guard.
  destruct (existsb _ present); [|done]. by intros [= <-].
Qed.

(** C1 at [t.csv] (lines [a], [1], [1]) and the table [t] whose column is
    unique: one record enters, the second line is rejected with its
    diagnostic. *)
Lemma records_loaded_per_file_witness :
  let r := insert_csv_to_table repeat_fs "t" "t.csv" (boot keyed_store) in
  session (boot keyed_store) !! Sql.nocase "t" = Some keyed_table /\
  integrity_only (tbl_guard keyed_table) /\
  fst r = Normal tt /\
  rows_of (session (snd r)) "t" = [["1"]] /\
  stdout (snd r) = ["Error inserting row: ['1']. Error: UNIQUE constraint failed: t.a"].
Proof.
  destruct (records_loaded_per_file repeat_fs "t" "t.csv"
              ("a" +:+ nl +:+ "1" +:+ nl +:+ "1" +:+ nl) None
              ["a"] [["1"]; ["1"]] (boot keyed_store) keyed_table)
    as (H1 & H2 & H3 & _);
    [reflexivity | reflexivity | reflexivity | discriminate | reflexivity | reflexivity
    | exact unique_guard_integrity | ].
  split; [reflexivity|]. split; [exact unique_guard_integrity|].
  split; [exact H1|]. split; [exact H2 | exact H3].
Defined.

(** C3 at both kinds of error: the arity error met by [a.1.csv] leaves the
    run, the integrity error met by the second [1] of [t.csv] is reported and
    the loop goes on. *)
Lemma only_integrity_errors_caught_witness :
  let st1 := snd (for_each ["a-1.csv"] (import_file collision_fs)
                    (snd (connect "store.db" (boot ∅)))) in
  let st3 := log (ev_open "a.1.csv")
               (snd (create_table_from_csv_header "a_1" ["p"; "q"; "r"]
                       (log (ev_open "a.1.csv") st1))) in
  let body := insert_row "t" 1 "?" in
  let u3 := snd (for_each [["1"]] body
                   (log (ev_open "t.csv")
                      (snd (create_table_from_csv_header "t" ["a"]
                              (log (ev_open "t.csv")
                                 (snd (connect "store.db" (boot keyed_store)))))))) in
  (execute (insert_sql "a_1" 3) ["3"; "4"; "5"] st3
   = (Raise collision_error, log (ev_execute (insert_sql "a_1" 3) ["3"; "4"; "5"]) st3) /\
   is_IntegrityError collision_error = false /\
   fst (add_csvs_to_database collision_fs "store.db" ["a-1.csv"; "a.1.csv"] (boot ∅))
   = Raise collision_error) /\
  (fst (execute (insert_sql "t" 1) ["1"] u3)
   = Raise (IntegrityError "UNIQUE constraint failed: t.a") /\
   fst (for_each [["1"]] body u3) = Normal tt /\
   stdout (snd (for_each [["1"]] body u3))
   = ["Error inserting row: ['1']. Error: UNIQUE constraint failed: t.a"]).
Proof.
  intros st1 st3 body u3. split.
  - pose proof (only_integrity_errors_caught collision_fs "store.db"
                  ["a-1.csv"] "a.1.csv" [] ("p,q,r" +:+ nl +:+ "3,4,5" +:+ nl) None
                  ["p"; "q"; "r"] [] ["3"; "4"; "5"] [] None (boot ∅) st1
                  (snd (create_table_from_csv_header "a_1" ["p"; "q"; "r"]
                          (log (ev_open "a.1.csv") st1)))
                  st3 (log (ev_execute (insert_sql "a_1" 3) ["3"; "4"; "5"]) st3)
                  collision_error) as H.
    cbv zeta in H.
    assert (E : execute (insert_sql "a_1" 3) ["3"; "4"; "5"] st3
                = (Raise collision_error,
                   log (ev_execute (insert_sql "a_1" 3) ["3"; "4"; "5"]) st3)).
    { vm_compute. reflexivity. }
    destruct H as [_ H];
      [vm_compute; reflexivity | reflexivity | reflexivity | vm_compute; reflexivity
      | reflexivity | reflexivity | exact E | ].
    split; [exact E|]. split; [reflexivity|].
    exact (f_equal fst H).
  - pose proof (only_integrity_errors_caught repeat_fs "store.db"
                  [] "t.csv" [] ("a" +:+ nl +:+ "1" +:+ nl +:+ "1" +:+ nl) None
                  ["a"] [["1"]] ["1"] [] None (boot keyed_store)
                  (snd (connect "store.db" (boot keyed_store)))
                  (snd (create_table_from_csv_header "t" ["a"]
                          (log (ev_open "t.csv")
                             (snd (connect "store.db" (boot keyed_store))))))
                  u3 (snd (execute (insert_sql "t" 1) ["1"] u3))
                  (IntegrityError "UNIQUE constraint failed: t.a")) as H.
    cbv zeta in H.
    specialize (H eq_refl eq_refl eq_refl
                  ltac:(vm_compute; reflexivity) ltac:(vm_compute; reflexivity)
                  eq_refl ltac:(vm_compute; reflexivity)).
    cbn [is_IntegrityError] in H.
    split; [vm_compute; reflexivity|].
    change body with (insert_row (sanitize_table_name "t.csv") (length ["a"])
                        (PyStr.join ", " (repeat "?" (length ["a"])))).
    rewrite H. split; vm_compute; reflexivity.
Defined.



(** C6 as stated fails: with an empty column list the statement is refused,
    although the table exists. *)
Lemma provisioning_existing_table_counterexample :
  let r := create_table_from_csv_header "t" [] (boot keyed_store) in
  session (boot keyed_store) !! Sql.nocase "t" = Some keyed_table /\
  create_sql "t" [] = "CREATE TABLE IF NOT EXISTS " +:+ q +:+ "t" +:+ q +:+ " ()" /\
  fst r = Raise (OperationalError "syntax error").
Proof. vm_compute. repeat split; reflexivity. Qed.

(** C6, amended, at the table [t] and the columns [b], [c]. *)
Lemma provisioning_existing_table_witness :
  let r := create_table_from_csv_header "t" ["b"; "c"] (boot keyed_store) in
  session (boot keyed_store) !! Sql.nocase "t" = Some keyed_table /\
  fst r = Normal tt /\
  session (snd r) = session (boot keyed_store) /\
  store (snd r) = store (boot keyed_store) /\
  session (snd r) !! Sql.nocase "t" = Some keyed_table.
Proof.
  split; [reflexivity|].
  apply (provisioning_existing_table "t" ["b"; "c"] (boot keyed_store) keyed_table);
    [reflexivity | reflexivity | discriminate | reflexivity | reflexivity].
Defined.



(** C9 at a store and no source file. *)
Lemma usage_error_without_io_witness :
  let r := main people_fs ["csvToDb.py"; "people.db"] (boot ∅) in
  (length ["csvToDb.py"; "people.db"] < 3)%nat /\
  fst r = Raise (SystemExit 1) /\
  exit_status (fst r) <> 0 /\
  trace (snd r) = [] /\
  store (snd r) = ∅.
Proof.
  assert (H : (length ["csvToDb.py"; "people.db"] < 3)%nat) by (simpl; lia).
  split; [exact H|].
  destruct (usage_error_without_io people_fs ["csvToDb.py"; "people.db"] (boot ∅) H)
    as (H1 & H2 & _ & H4 & H5 & _).
  split; [exact H1|]. split; [exact H2|]. split; [exact H4 | exact H5].
Defined.

(** C10 at an empty file between two imports of [people.csv]. *)
Lemma empty_file_aborts_witness :
  let st1 := snd (for_each ["people.csv"] (import_file people_fs)
                    (snd (connect "people.db" (boot ∅)))) in
  let r := add_csvs_to_database people_fs "people.db"
             ["people.csv"; "empty.csv"; "people.csv"] (boot ∅) in
  people_fs "empty.csv" = text_file EmptyString None /\
  fst r = Raise StopIteration /\
  trace (snd r) = trace st1 ++ [ev_open "empty.csv"; ev_exit false] /\
  rows_of (store (snd r)) "people" = [].
Proof.
  intros st1 r.
  destruct (empty_file_aborts people_fs "people.db" ["people.csv"] "empty.csv"
              ["people.csv"] (boot ∅) st1) as (_ & H2 & H3 & H4);
    [vm_compute; reflexivity | reflexivity | ].
  split; [reflexivity|]. subst r.
  change (["people.csv"; "empty.csv"; "people.csv"])
    with (["people.csv"] ++ "empty.csv" :: ["people.csv"]).
  split; [by rewrite H2|]. split; [exact H3|].
  rewrite H4. reflexivity.
Defined.

(** C5 at a missing file after [people.csv]: the run raises the error of the
    open, commits nothing and leaves [people] without records. *)
Lemma commit_once_after_all_files_witness :
  let r := add_csvs_to_database people_fs "people.db" ["people.csv"; "nofile.csv"] (boot ∅) in
  people_fs "nofile.csv" = missing /\
  fst r = Raise (OSError "No such file or directory") /\
  rows_of (store (snd r)) "people" = [] /\
  forallb (fun ev => match ev with ev_commit => false | _ => true end) (trace (snd r)) = true.
Proof.
  pose proof (commit_once_after_all_files people_fs "people.db" ["people.csv"; "nofile.csv"]
                (boot ∅)) as H.
  cbv zeta in H. destruct H as [_ [_ [Hraise Hopen]]].
  pose proof (Hopen "nofile.csv" (OSError "No such file or directory")
                (snd (for_each ["people.csv"] (import_file people_fs)
                        (snd (connect "people.db" (boot ∅))))) eq_refl) as Hp.
  pose proof (Hraise ["people.csv"] "nofile.csv" [] _ _ _ eq_refl
                ltac:(vm_compute; reflexivity) Hp) as Hrun.
  split; [reflexivity|]. rewrite Hrun. cbn [fst snd].
  split; [reflexivity|]. split; vm_compute; reflexivity.
Defined.

(** * Further properties *)

(** ** The identifier sanitizer, again *)

Section SanitizerMore.
Import PyStr os_path SanitizerSpec.

Lemma final_path_segment_plain s :
  contains "/" s = false -> final_path_segment s = s.
Proof.
  destruct s as [|a s]; [done|]. simpl. intros H.
  apply orb_false_elim in H as [Ha Hs]. by rewrite Hs, Ha.
Qed.

Lemma final_path_segment_directory directory name :
  final_path_segment (directory +:+ "/" +:+ name) = final_path_segment name.
Proof.
  induction directory as [|a d IH].
  - change (EmptyString +:+ "/" +:+ name) with (String "/" name).
    simpl. destruct (contains "/" name) eqn:E; [done|].
    by rewrite final_path_segment_plain.
  - rewrite append_cons. simpl. rewrite contains_app.
    change (contains "/" ("/" +:+ name)) with true.
    by rewrite orb_true_r.
Qed.

Lemma contains_remove_extension c named s :
  contains c s = false -> contains c (remove_extension_from named s) = false.
Proof.
  revert named. induction s as [|a s IH]; intros named H; [done|].
  simpl in *. apply orb_false_elim in H as [Ha Hs].
  destruct (_ && _); [done|]. simpl. by rewrite Ha, IH.
Qed.

Lemma contains_underscore_all c s :
  c <> "_"%char -> contains c s = false -> contains c (underscore_all s) = false.
Proof.
  intros Hc. induction s as [|a s IH]; [done|].
  simpl. intros H. apply orb_false_elim in H as [Ha Hs].
  rewrite (IH Hs), orb_false_r. unfold underscore.
  destruct (_ || _); [|done].
  apply Ascii.eqb_neq. congruence.
Qed.

Lemma underscore_all_clean_contains s :
  contains "." (underscore_all s) = false /\
  contains " " (underscore_all s) = false /\
  contains "-" (underscore_all s) = false.
Proof.
  induction s as [|a s (H1 & H2 & H3)]; [done|].
  simpl. rewrite H1, H2, H3, !orb_false_r.
  destruct (underscore_clean a) as (N1 & N2 & N3).
  by rewrite !(proj2 (Ascii.eqb_neq _ _)).
Qed.

Lemma underscore_all_fixed s :
  contains "." s = false -> contains " " s = false -> contains "-" s = false ->
  underscore_all s = s.
Proof.
  induction s as [|a s IH]; [done|]. simpl. intros H1 H2 H3.
  apply orb_false_elim in H1 as [A1 S1]. apply orb_false_elim in H2 as [A2 S2].
  apply orb_false_elim in H3 as [A3 S3].
  rewrite IH by done. unfold underscore. by rewrite A1, A2, A3.
Qed.

Lemma sanitize_table_name_equation (file_path : string) :
  sanitize_table_name file_path = table_identifier file_path /\
  contains "/" (sanitize_table_name file_path) = false.
Proof.
  assert (E : sanitize_table_name file_path = table_identifier file_path).
  { unfold sanitize_table_name, table_identifier.
    rewrite replace_underscore_all, basename_final_path_segment.
    rewrite splitext_remove_last_extension; [done|].
    apply final_path_segment_no_sep. }
  split; [done|]. rewrite E. unfold table_identifier.
  apply contains_underscore_all; [done|].
  apply contains_remove_extension, final_path_segment_no_sep.
Qed.

(** X1.  The identifier [sanitize_table_name] derives holds no path
    separator, and sanitizing it again gives it back: the derivation is
    idempotent. *)
Theorem sanitize_table_name_idempotent (file_path : string) :
  contains "/" (sanitize_table_name file_path) = false /\
  sanitize_table_name (sanitize_table_name file_path) = sanitize_table_name file_path.
Proof.
  destruct (sanitize_table_name_equation file_path) as [E Hslash].
  split; [done|].
  set (t := sanitize_table_name file_path) in *.
  destruct (sanitize_table_name_equation t) as [Et _]. rewrite Et.
  unfold table_identifier.
  rewrite final_path_segment_plain by done.
  assert (Hc : contains "." t = false /\ contains " " t = false /\ contains "-" t = false).
  { rewrite E. apply underscore_all_clean_contains. }
  destruct Hc as (H1 & H2 & H3).
  unfold remove_last_extension. rewrite remove_extension_no_dot by done.
  by apply underscore_all_fixed.
Qed.

(** X2.  The directory of a path has no part in the identifier: a path made
    of any directory, a separator and a name gives the identifier of the
    name alone, so that files of the same name in different directories
    share a table. *)
Theorem sanitize_table_name_ignores_directory (directory name : string) :
  sanitize_table_name (directory +:+ "/" +:+ name) = sanitize_table_name name.
Proof.
  destruct (sanitize_table_name_equation (directory +:+ "/" +:+ name)) as [-> _].
  destruct (sanitize_table_name_equation name) as [-> _].
  unfold table_identifier. by rewrite final_path_segment_directory.
Qed.

End SanitizerMore.

(** ** What a run that completes does to the outside *)

Lemma run_statement_trace s params st o st' :
  run_statement s params st = (o, st') -> trace st' = trace st.
Proof.
  unfold run_statement. intros H.
  repeat case_match; by injection H as <- <-.
Qed.

Lemma execute_trace sql params st o st' :
  execute sql params st = (o, st') -> trace st' = trace st ++ [ev_execute sql params].
Proof.
  unfold execute. intros H.
  destruct (PyStr.contains NUL sql); [by injection H as <- <-|].
  destruct (Sql.parse sql); [|by injection H as <- <-].
  by apply run_statement_trace in H.
Qed.

Lemma insert_rows_trace table_name header_row data : forall st st',
  for_each data
    (insert_row table_name (length header_row)
       (PyStr.join ", " (repeat "?" (length header_row)))) st = (Normal tt, st') ->
  trace st' =
  trace st ++ map (ev_execute (insert_sql table_name (length header_row)))
                (List.filter (well_formed header_row) data).
Proof.
  induction data as [|r data IH]; intros st st' H.
  - injection H as <-. by rewrite app_nil_r.
  - rewrite for_each_cons, insert_row_eq in H. cbn [List.filter].
    destruct (well_formed header_row r).
    + unfold try_except in H.
      destruct (execute _ _ st) as [[[]|e] s1] eqn:E.
      * apply execute_trace in E. apply IH in H.
        rewrite H, E. cbn [map]. by rewrite <- app_assoc.
      * destruct (is_IntegrityError e); [|done].
        apply execute_trace in E. apply IH in H. cbn [print trace] in H.
        rewrite H, E. cbn [map]. by rewrite <- app_assoc.
    + apply IH in H. by cbn [print trace] in H.
Qed.

Lemma import_file_trace fs path st st' :
  import_file fs path st = (Normal tt, st') ->
  trace st' = trace st ++ file_events fs path.
Proof.
  unfold file_events, header_of, data_of, records_of, import_file, bind at 1, open.
  destruct (fs path) as [e|text broken] eqn:Hfs; [done|].
  cbn [fst snd]. unfold bind at 1, next at 1.
  destruct (csv_reader text broken) as [[|h data] en] eqn:Hrd; cbn [pending ending].
  { by destruct en. }
  unfold ret at 1. cbn [fst snd]. unfold bind at 1.
  destruct (create_table_from_csv_header _ _ _) as [[[]|e] s1] eqn:Hc; [|done].
  apply execute_trace in Hc.
  unfold bind at 1, next at 1. cbn [pending ret].
  unfold insert_csv_to_table, bind at 1, open. rewrite Hfs. cbn [fst snd].
  rewrite Hrd. unfold bind at 1, next at 1. cbn [pending ret fst snd].
  unfold for_rows, bind. cbn [pending ending].
  destruct (for_each data _ _) as [[[]|e] s2] eqn:Hd; [|done].
  apply insert_rows_trace in Hd. cbn [trace log] in Hd, Hc.
  intros H. assert (st' = s2) as -> by (destruct en; by injection H).
  rewrite Hd, Hc. fold (create_sql (sanitize_table_name path) h).
  by rewrite <- !app_assoc.
Qed.

Lemma import_files_trace fs paths : forall st st',
  for_each paths (import_file fs) st = (Normal tt, st') ->
  trace st' = trace st ++ concat (map (file_events fs) paths).
Proof.
  induction paths as [|p paths IH]; intros st st' H.
  - injection H as <-. by rewrite app_nil_r.
  - rewrite for_each_cons in H.
    destruct (import_file fs p st) as [[[]|e] s1] eqn:Hp; [|done].
    apply import_file_trace in Hp. apply IH in H.
    rewrite H, Hp. cbn [map concat]. by rewrite <- !app_assoc.
Qed.

(** X3.  A run that completes has done exactly this, in this order: it
    connected; for each source file in turn it opened the file, declared the
    table, opened the file again and executed one insertion for each
    well-formed data row, with the fields bound as they were read; it
    committed once and left the scope of the connection. *)
Theorem completed_run_trace fs db_name csv_file_paths st :
  fst (add_csvs_to_database fs db_name csv_file_paths st) = Normal tt ->
  trace (snd (add_csvs_to_database fs db_name csv_file_paths st)) =
  trace st ++ [ev_connect db_name]
  ++ concat (map (file_events fs) csv_file_paths)
  ++ [ev_commit; ev_exit true].
Proof.
  rewrite add_csvs_to_database_eq.
  destruct (for_each csv_file_paths (import_file fs) _) as [[[]|e] st1] eqn:Hrun; [|done].
  intros _. apply import_files_trace in Hrun.
  cbn [snd trace log commit_transaction connect] in *.
  rewrite Hrun. by rewrite <- !app_assoc.
Qed.

(** ** The connection after a run *)

(** X4.  However a run ends, it leaves no transaction open, and what the
    connection sees is what the store durably holds: the records of the run
    are either all committed or all rolled back. *)
Theorem run_leaves_no_transaction fs db_name csv_file_paths st :
  in_transaction (snd (add_csvs_to_database fs db_name csv_file_paths st)) = false /\
  session (snd (add_csvs_to_database fs db_name csv_file_paths st))
  = store (snd (add_csvs_to_database fs db_name csv_file_paths st)).
Proof.
  rewrite add_csvs_to_database_eq.
  destruct (for_each csv_file_paths (import_file fs) _) as [[[]|e] st1] eqn:Hrun;
    cbn [snd].
  - split; [done|].
    pose proof (committed_session fs db_name csv_file_paths st st1 Hrun) as Hs.
    cbn [session store log commit_transaction in_transaction] in *. by rewrite Hs.
  - split; [done|]. cbn [session store rollback_transaction log in_transaction].
    destruct (in_transaction st1) eqn:Ht; [done|].
    pose proof (preserves_files _ _ _ _ _ Hrun) as [_ Hc].
    destruct (Hc (consistent_connect db_name st)) as [Hc1 _]. by apply Hc1.
Qed.

(** ** Loading alone makes nothing durable *)

Lemma store_kept_refl st : store_kept st st.
Proof. done. Qed.

Lemma store_kept_trans st1 st2 st3 :
  store_kept st1 st2 -> store_kept st2 st3 -> store_kept st1 st3.
Proof. unfold store_kept. congruence. Qed.

Lemma store_kept_print line : keeps store_kept (print line).
Proof. by intros st o st' [= <- <-]. Qed.

Lemma store_kept_open fs path : keeps store_kept (open fs path).
Proof.
  intros st o st' H. unfold open in H.
  destruct (fs path); by injection H as <- <-.
Qed.

Lemma store_kept_execute_insert rest params :
  keeps store_kept (execute ("INSERT INTO " +:+ rest) params).
Proof.
  intros st o st' H. unfold execute in H.
  destruct (PyStr.contains NUL _); [by injection H as <- <-|].
  pose proof (insert_text_shape rest) as Hshape.
  destruct (Sql.parse _) as [[name columns|name arity]|]; [done| |by injection H as <- <-].
  unfold run_statement in H. cbn [session log] in H.
  repeat case_match; by injection H as <- <-.
Qed.

(** X5.  Loading a source file into a table through [insert_csv_to_table]
    makes nothing durable, whatever the file and the table: the store is as
    it was, and the records wait for the caller's commit. *)
Theorem insert_csv_to_table_commits_nothing fs table_name csv_file_path st :
  store (snd (insert_csv_to_table fs table_name csv_file_path st)) = store st.
Proof.
  destruct (insert_csv_to_table fs table_name csv_file_path st) as [o st'] eqn:E.
  revert st o st' E.
  apply (keeps_insert_csv_to_table store_kept store_kept_refl store_kept_trans
           store_kept_print store_kept_open).
  intros placeholders r. apply store_kept_execute_insert.
Qed.

(** ** A run only adds to the tables it finds *)














(** ** A run keeps to the tables of its files *)












(** ** Files with tables of their own *)





(** ** Runs that fail *)





(** ** The further properties at worked inputs *)

Section Worked.
Import Scenario Archive.

(** X3 at [people.csv] and [data/pets.csv]. *)
Lemma completed_run_trace_witness :
  let r := add_csvs_to_database archive_fs "a.db" ["people.csv"; "data/pets.csv"] (boot ∅) in
  fst r = Normal tt /\
  trace (snd r) =
  [ev_connect "a.db";
   ev_open "people.csv"; ev_execute (create_sql "people" ["id"; "name"]) [];
   ev_open "people.csv"; ev_execute (insert_sql "people" 2) ["1"; "Alice"];
   ev_open "data/pets.csv"; ev_execute (create_sql "pets" ["name"; "owner"]) [];
   ev_open "data/pets.csv"; ev_execute (insert_sql "pets" 2) ["Rex"; "1"];
   ev_commit; ev_exit true].
Proof.
  assert (H : fst (add_csvs_to_database archive_fs "a.db" ["people.csv"; "data/pets.csv"]
                     (boot ∅)) = Normal tt) by (vm_compute; reflexivity).
  split; [exact H|].
  exact (completed_run_trace archive_fs "a.db" ["people.csv"; "data/pets.csv"] (boot ∅) H).
Defined.







End Worked.
